(** * Xi-cam.core: path resolution and the message facility

    A shallow embedding of [xicam/core/paths.py] and
    [xicam/core/msg/__init__.py].  Python module globals become an explicit
    state record, exceptions become the [Raise] branch of a result type, and
    every function is a computation in a small state-and-exception monad, so
    that a mutation made before an exception is raised stays visible. *)

From Stdlib Require Import ZArith Lia.
From stdpp Require Import base strings list gmap pretty.

Local Open Scope Z_scope.
Local Open Scope string_scope.

(** ** Exceptions and the state-and-exception monad *)

Inductive exn : Set :=
| TypeError
| ValueError
| KeyError
| IndexError
| NameError
| AttributeError
| FileExistsError
| FileNotFoundError
| NotADirectoryError
| PermissionError.

Global Instance exn_eq_dec : EqDecision exn.
Proof. solve_decision. Defined.

Inductive result (A : Type) : Type :=
| Return (a : A)
| Raise (e : exn).
Arguments Return {A} a.
Arguments Raise {A} e.

Definition M (S A : Type) : Type := S -> result A * S.

Definition ret {S A} (a : A) : M S A := fun s => (Return a, s).

Definition raise {S A} (e : exn) : M S A := fun s => (Raise e, s).

Definition bind {S A B} (c : M S A) (k : A -> M S B) : M S B :=
  fun s => match c s with
           | (Return a, s') => k a s'
           | (Raise e, s') => (Raise e, s')
           end.

Definition gets {S A} (f : S -> A) : M S A := fun s => (Return (f s), s).

Definition modify {S} (f : S -> S) : M S unit := fun s => (Return tt, f s).

(** [try: c except e: h]: the handler runs in the state the body left. *)
Definition try_except {S A} (c : M S A) (e : exn) (h : M S A) : M S A :=
  fun s => match c s with
           | (Raise e', s') => if decide (e' = e) then h s' else (Raise e', s')
           | r => r
           end.

Notation "x <- c ;; k" := (bind c (fun x => k))
  (at level 20, c at level 99, k at level 200, only parsing).
Notation "c ;; k" := (bind c (fun _ => k))
  (at level 100, k at level 200, right associativity, only parsing).

Definition raises {A S} (r : result A * S) : bool :=
  match fst r with Raise _ => true | Return _ => false end.

(** ** [xicam/core/paths.py] *)

Module Paths.

(** A path is the list of its components, innermost first, so that
    [os.path.join p c] is [c :: p] and the parent of [c :: p] is [p]; the
    empty list is the file-system root. *)
Definition path : Type := list string.

Definition of_components (l : list string) : path := rev l.

Definition join (p : path) (c : string) : path := c :: p.

Definition parent (p : path) : path := tail p.

(** *** The file system seen by [os.makedirs] *)

Record filesystem : Type := {
  dirs : gset (list string);
  files : gset (list string);
  readonly : gset (list string)
}.

Definition isdir (p : path) (fs : filesystem) : bool :=
  bool_decide (p = []) || bool_decide (p ∈ dirs fs).

Definition exists_ (p : path) (fs : filesystem) : bool :=
  isdir p fs || bool_decide (p ∈ files fs).

Definition add_dir (p : path) (fs : filesystem) : filesystem :=
  {| dirs := {[p]} ∪ dirs fs; files := files fs; readonly := readonly fs |}.

(** [os.mkdir]: the parent has to be a directory, the name has to be free,
    and the parent has to be writable. *)
Definition mkdir (p : path) : M filesystem unit :=
  fun fs =>
    if exists_ p fs then (Raise FileExistsError, fs)
    else if negb (exists_ (parent p) fs) then (Raise FileNotFoundError, fs)
    else if negb (isdir (parent p) fs) then (Raise NotADirectoryError, fs)
    else if bool_decide (parent p ∈ readonly fs) then (Raise PermissionError, fs)
    else (Return tt, add_dir p fs).

(** [os.makedirs(name)] with [exist_ok=False]: missing ancestors are created
    first (an ancestor that appears meanwhile is not an error), then the leaf
    is made with [mkdir], whose error is re-raised. *)
Fixpoint makedirs (p : path) : M filesystem unit :=
  match p with
  | [] => mkdir []
  | _ :: head =>
      fun fs =>
        if negb (exists_ head fs)
        then (try_except (makedirs head) FileExistsError (ret tt) ;; mkdir p) fs
        else mkdir p fs
  end.

(** *** [init_dir] *)

Definition init_dir (p : path) : M filesystem unit :=
  try_except (makedirs p) FileExistsError (ret tt).

(** *** The module body *)

Inductive appdirs_fn : Set := user_config_dir | site_config_dir | user_cache_dir.

(** What a module global is bound to: one of the functions imported from
    [appdirs], a string that is a path, or another string. *)
Inductive pyobj : Type :=
| Func (f : appdirs_fn)
| Str (p : path)
| Text (s : string).

Record module_state : Type := {
  globals : gmap string pyobj;
  fs : filesystem
}.

Definition store (name : string) (v : pyobj) : M module_state unit :=
  modify (fun s => {| globals := <[name := v]> (globals s); fs := fs s |}).

Definition load (name : string) : M module_state pyobj :=
  fun s => match globals s !! name with
           | Some v => (Return v, s)
           | None => (Raise NameError, s)
           end.

Definition lift_fs {A} (c : M filesystem A) : M module_state A :=
  fun s => let (r, fs') := c (fs s) in (r, {| globals := globals s; fs := fs' |}).

Section Module_body.

(** The environment: what the [appdirs] functions answer on this machine for
    an application name, the user's home directory, and [platform.system()]. *)
Variable appdirs : appdirs_fn -> string -> path.
Variable home : path.
Variable op_sys : string.

(** [f(appname=...)]: calling a string is a [TypeError]. *)
Definition call (f : pyobj) (appname : string) : M module_state pyobj :=
  match f with
  | Func g => ret (Str (appdirs g appname))
  | Str _ | Text _ => raise TypeError
  end.

(** [os.path.join(a, c)] for a literal component [c]. *)
Definition os_path_join (a : pyobj) (c : string) : M module_state pyobj :=
  match a with
  | Str p => ret (Str (join p c))
  | Func _ | Text _ => raise TypeError
  end.

Definition call_init_dir (a : pyobj) : M module_state unit :=
  match a with
  | Str p => lift_fs (init_dir p)
  | Func _ | Text _ => raise TypeError
  end.

Definition import_appdirs : M module_state unit :=
  store "user_config_dir" (Func user_config_dir) ;;
  store "site_config_dir" (Func site_config_dir) ;;
  store "user_cache_dir" (Func user_cache_dir).

Definition paths_module : M module_state unit :=
  import_appdirs ;;
  f <- load "user_cache_dir" ;; v <- call f "xicam" ;; store "user_cache_dir" v ;;
  f <- load "site_config_dir" ;; v <- call f "xicam" ;; store "site_config_dir" v ;;
  f <- load "user_config_dir" ;; v <- call f "xicam" ;; store "user_config_dir" v ;;
  store "user_dev_dir" (Str (join (join home "Xi-cam") "plugins")) ;;
  store "op_sys" (Text op_sys) ;;
  (if decide (op_sys = "Darwin")
   then f <- load "user_cache_dir" ;; d <- call f "xicam" ;;
        v <- os_path_join d "plugins" ;; store "user_plugin_dir" v
   else f <- load "user_config_dir" ;; d <- call f "xicam" ;;
        v <- os_path_join d "plugins" ;; store "user_plugin_dir" v) ;;
  f <- load "site_config_dir" ;; d <- call f "xicam" ;;
  v <- os_path_join d "plugins" ;; store "site_plugin_dir" v ;;
  p <- load "user_cache_dir" ;; call_init_dir p ;;
  p <- load "user_config_dir" ;; call_init_dir p ;;
  p <- load "user_plugin_dir" ;; call_init_dir p.

End Module_body.

Definition fresh_module (fs0 : filesystem) : module_state :=
  {| globals := ∅; fs := fs0 |}.

End Paths.

(** ** [xicam/core/msg/__init__.py] *)

Module Msg.

(** *** Python values and the [logging] constants *)

(** The values that reach the facility as a [level] or as a message part. *)
Inductive value : Type :=
| VInt (z : Z)
| VStr (s : string).

Global Instance value_eq_dec : EqDecision value.
Proof. solve_decision. Defined.

Definition str (v : value) : string :=
  match v with
  | VInt z => pretty z
  | VStr s => s
  end.

Definition NOTSET : Z := 0.
Definition DEBUG : Z := 10.
Definition INFO : Z := 20.
Definition WARNING : Z := 30.
Definition ERROR : Z := 40.
Definition CRITICAL : Z := 50.

Definition levels : gmap Z string :=
  list_to_map [(DEBUG, "DEBUG"); (INFO, "INFO"); (WARNING, "WARNING");
               (ERROR, "ERROR"); (CRITICAL, "CRITICAL")].

(** [levels[level]]: a string is never a key of this dictionary. *)
Definition levels_getitem {S} (level : value) : M S string :=
  match level with
  | VInt z => match levels !! z with
              | Some n => ret n
              | None => raise KeyError
              end
  | VStr _ => raise KeyError
  end.

(** [logging._nameToLevel] *)
Definition _nameToLevel : gmap string Z :=
  list_to_map [("CRITICAL", CRITICAL); ("FATAL", CRITICAL); ("ERROR", ERROR);
               ("WARN", WARNING); ("WARNING", WARNING); ("INFO", INFO);
               ("DEBUG", DEBUG); ("NOTSET", NOTSET)].

(** [logging._checkLevel]: every integer is accepted as it is; a string has to
    be a level name. *)
Definition _checkLevel {S} (level : value) : M S Z :=
  match level with
  | VInt z => ret z
  | VStr s => match _nameToLevel !! s with
              | Some z => ret z
              | None => raise ValueError
              end
  end.

Definition blacklist : list string :=
  ["fabio.edfimage"; "ipykernel.inprocess.ipkernel"; "pyFAI.azimuthalIntegrator";
   "traitlets"; "fabio.openimage"; "fabio.fabioutils"; "PyQt5.uic.uiparser";
   "yapsy"; "caproto.threading.client"; "caproto._circuit"; "caproto"].

(** *** GUI widgets and the trace of what is done to them *)

Inductive widget : Set := Widget (id : nat).

Inductive icon : Set := Information | Warning | Critical.

Inductive method : Set :=
| show
| hide
| setRange (minval maxval : Z)
| setValue (v : Z)
| statusbar_showMessage (text : string) (msecs : Z)
| statusbar_clearMessage
| tray_showMessage (title text : string) (i : icon) (msecs : Z).

Inductive call : Set :=
| Method (w : widget) (m : method)
| SingleShot (msecs : Z) (w : widget) (m : method).

(** A widget call is either made directly, on the calling thread, or handed
    to the GUI thread. *)
Inductive event : Set :=
| Direct (c : call)
| InMainThread (c : call).

(** *** Log records *)

Record record : Type := {
  levelno : Z;
  name : string;
  message : string
}.

(** *** Module state *)

Record state : Type := {
  statusbar : option widget;
  progressbar : option widget;
  trayicon : option widget;
  _thread_count : Z;
  threadIds : gmap Z Z;
  logger_level : gmap string Z;
  stdch_level : Z;
  stdch_loggers : gset string;
  sink : list record;
  gui : list event
}.

Definition set_statusbar (w : option widget) (s : state) : state :=
  {| statusbar := w; progressbar := progressbar s; trayicon := trayicon s;
     _thread_count := _thread_count s; threadIds := threadIds s;
     logger_level := logger_level s; stdch_level := stdch_level s;
     stdch_loggers := stdch_loggers s; sink := sink s; gui := gui s |}.

Definition set_progressbar (w : option widget) (s : state) : state :=
  {| statusbar := statusbar s; progressbar := w; trayicon := trayicon s;
     _thread_count := _thread_count s; threadIds := threadIds s;
     logger_level := logger_level s; stdch_level := stdch_level s;
     stdch_loggers := stdch_loggers s; sink := sink s; gui := gui s |}.

Definition set_trayicon (w : option widget) (s : state) : state :=
  {| statusbar := statusbar s; progressbar := progressbar s; trayicon := w;
     _thread_count := _thread_count s; threadIds := threadIds s;
     logger_level := logger_level s; stdch_level := stdch_level s;
     stdch_loggers := stdch_loggers s; sink := sink s; gui := gui s |}.

Definition set_registry (n : Z) (ids : gmap Z Z) (s : state) : state :=
  {| statusbar := statusbar s; progressbar := progressbar s;
     trayicon := trayicon s;
     _thread_count := n; threadIds := ids;
     logger_level := logger_level s; stdch_level := stdch_level s;
     stdch_loggers := stdch_loggers s; sink := sink s; gui := gui s |}.

Definition set_logger_level (l : gmap string Z) (s : state) : state :=
  {| statusbar := statusbar s; progressbar := progressbar s;
     trayicon := trayicon s;
     _thread_count := _thread_count s; threadIds := threadIds s;
     logger_level := l; stdch_level := stdch_level s;
     stdch_loggers := stdch_loggers s; sink := sink s; gui := gui s |}.

Definition set_stdch_level (z : Z) (s : state) : state :=
  {| statusbar := statusbar s; progressbar := progressbar s;
     trayicon := trayicon s;
     _thread_count := _thread_count s; threadIds := threadIds s;
     logger_level := logger_level s; stdch_level := z;
     stdch_loggers := stdch_loggers s; sink := sink s; gui := gui s |}.

Definition set_stdch_loggers (l : gset string) (s : state) : state :=
  {| statusbar := statusbar s; progressbar := progressbar s;
     trayicon := trayicon s;
     _thread_count := _thread_count s; threadIds := threadIds s;
     logger_level := logger_level s; stdch_level := stdch_level s;
     stdch_loggers := l; sink := sink s; gui := gui s |}.

Definition set_sink (l : list record) (s : state) : state :=
  {| statusbar := statusbar s; progressbar := progressbar s;
     trayicon := trayicon s;
     _thread_count := _thread_count s; threadIds := threadIds s;
     logger_level := logger_level s; stdch_level := stdch_level s;
     stdch_loggers := stdch_loggers s; sink := l; gui := gui s |}.

Definition set_gui (l : list event) (s : state) : state :=
  {| statusbar := statusbar s; progressbar := progressbar s;
     trayicon := trayicon s;
     _thread_count := _thread_count s; threadIds := threadIds s;
     logger_level := logger_level s; stdch_level := stdch_level s;
     stdch_loggers := stdch_loggers s; sink := sink s; gui := l |}.

(** The state the module body leaves: no status bar and no progress bar, a
    tray icon only when a [QApplication] is running, the blacklisted loggers
    at [ERROR], an empty thread registry. *)
Definition initial_state (tray : option widget) : state :=
  {| statusbar := None; progressbar := None; trayicon := tray;
     _thread_count := 0; threadIds := ∅;
     logger_level := list_to_map ((fun n => (n, ERROR)) <$> blacklist);
     stdch_level := NOTSET; stdch_loggers := ∅; sink := []; gui := [] |}.

(** *** The thread registry *)

Definition _increment_thread : M state Z :=
  fun s =>
    let n := _thread_count s + 1 in
    (Return n, set_registry n (threadIds s) s).

(** [threadIds[k]] on [defaultdict(_increment_thread)]: a missing key is bound
    to what the factory returns. *)
Definition threadIds_getitem (k : Z) : M state Z :=
  fun s =>
    match threadIds s !! k with
    | Some n => (Return n, s)
    | None =>
        (n <- _increment_thread ;;
         modify (fun s' => set_registry (_thread_count s') (<[k := n]> (threadIds s')) s') ;;
         ret n) s
    end.

(** *** The parts of [logging] the module drives *)

Definition Logger_setLevel (logger : string) (level : Z) : M state unit :=
  modify (fun s => set_logger_level (<[logger := level]> (logger_level s)) s).

Definition Handler_setLevel (level : value) : M state unit :=
  z <- _checkLevel level ;; modify (set_stdch_level z).

Definition Logger_addHandler (logger : string) : M state unit :=
  modify (fun s => set_stdch_loggers ({[logger]} ∪ stdch_loggers s) s).

(** [Logger.log(level, msg)]: a level that is not an integer is a
    [TypeError]; the record is handled when the level reaches the logger's
    threshold ([logMessage] sets the logger's own threshold before it logs).
    [sink] is the stream of handled records, from which the attached
    handlers draw. *)
Definition Logger_log (logger : string) (level msg : value) : M state unit :=
  match level with
  | VStr _ => raise TypeError
  | VInt l =>
      fun s =>
        if bool_decide (default DEBUG (logger_level s !! logger) <= l)
        then (Return tt,
              set_sink (sink s ++ [{| levelno := l; name := logger;
                                      message := str msg |}]) s)
        else (Return tt, s)
  end.

(** *** The caller's side of a call *)

Inductive thread : Set := MainThread | Thread (ident : Z).

(** What a call reads from its surroundings: the calling thread, the clock
    ([time.asctime()]) and the name of the calling function
    ([inspect.stack()[1][3]]). *)
Record env : Type := {
  current_thread : thread;
  asctime : string;
  caller : string
}.

Definition called_from (f : string) (e : env) : env :=
  {| current_thread := current_thread e; asctime := asctime e; caller := f |}.

(** Modelled from the spec: [xicam.core.threads.invoke_in_main_thread] is not
    among the sources; by the spec's marshalling rule it hands the call to
    the GUI thread, which the trace records as an [InMainThread] event. *)
Definition invoke_in_main_thread (c : call) : M state unit :=
  modify (fun s => set_gui (gui s ++ [InMainThread c]) s).

Definition direct (c : call) : M state unit :=
  modify (fun s => set_gui (gui s ++ [Direct c]) s).

(** *** [logMessage] *)

Definition format_line (timestamp loggername levelname thread s : string) : string :=
  timestamp +:+ " - " +:+ loggername +:+ " - " +:+ levelname +:+ " - "
            +:+ thread +:+ " - " +:+ s.

Definition thread_label (t : thread) : M state string :=
  match t with
  | MainThread => ret "M"
  | Thread i => n <- threadIds_getitem i ;; ret (str (VInt n))
  end.

(** [if not loggername: loggername = inspect.stack()[1][3]]: a missing or an
    empty name is replaced by the caller's. *)
Definition resolve_name (e : env) (loggername : option string) : string :=
  match loggername with
  | Some n => if decide (n = "") then caller e else n
  | None => caller e
  end.

Definition logMessage (e : env) (args : list value) (level : value)
    (loggername timestamp : option string) : M state unit :=
  let s := String.concat " " (str <$> args) in
  let loggername := resolve_name e loggername in
  Logger_setLevel loggername DEBUG ;;
  level <- try_except (Handler_setLevel level ;; ret level) ValueError
             (let level := VInt CRITICAL in
              Logger_log loggername
                (VStr "Unrecognized logger level for following message...") level ;;
              ret level) ;;
  Logger_addHandler loggername ;;
  let timestamp := default (asctime e) timestamp in
  levelname <- levels_getitem level ;;
  thread <- thread_label (current_thread e) ;;
  Logger_log loggername level
    (VStr (format_line timestamp loggername levelname thread s)).

(** *** The widget operations *)

Definition showProgress (v minval maxval : Z) : M state unit :=
  pb <- gets progressbar ;;
  match pb with
  | Some w =>
      invoke_in_main_thread (Method w show) ;;
      invoke_in_main_thread (Method w (setRange minval maxval)) ;;
      invoke_in_main_thread (Method w (setValue v))
  | None => ret tt
  end.

Definition showBusy : M state unit :=
  pb <- gets progressbar ;;
  match pb with
  | Some w =>
      invoke_in_main_thread (Method w show) ;;
      invoke_in_main_thread (Method w (setRange 0 0))
  | None => ret tt
  end.

Definition hideBusy : M state unit :=
  pb <- gets progressbar ;;
  match pb with
  | Some w =>
      direct (Method w hide) ;;
      direct (Method w (setRange 0 100))
  | None => ret tt
  end.

Definition showReady : M state unit := hideBusy.
Definition hideProgress : M state unit := hideBusy.

(** The three [if]s by which [notifyMessage] picks the icon; [None] when
    none of them fires. *)
Definition icon_of (level : value) : option icon :=
  let i : option icon := None in
  let i := if bool_decide (level ∈ [VInt INFO; VInt DEBUG])
           then Some Information else i in
  let i := if bool_decide (level = VInt WARNING) then Some Warning else i in
  let i := if bool_decide (level ∈ [VInt ERROR; VInt CRITICAL])
           then Some Critical else i in
  i.

(** [notifyMessage]; its defaults are [timeout=8000], an empty [title] and
    [level=INFO].  The parts are strings, as the docstring has it
    ([tuple(str)]). *)
Definition notifyMessage (e : env) (args : list string) (timeout : Z)
    (title : string) (level : value) : M state unit :=
  tray <- gets trayicon ;;
  match tray with
  | Some t =>
      match icon_of level with
      | None => raise ValueError
      | Some i =>
          direct (Method t show) ;;
          invoke_in_main_thread
            (Method t (tray_showMessage title (String.concat "" args) i timeout)) ;;
          invoke_in_main_thread (SingleShot timeout t hide)
      end
  | None => ret tt
  end ;;
  logMessage (called_from "notifyMessage" e) (VStr <$> args) (VInt INFO) None None.

(** The keyword arguments [showMessage] passes on to [logMessage]. *)
Record kwargs : Type := {
  kw_level : option value;
  kw_loggername : option string;
  kw_timestamp : option string
}.

Definition showMessage (e : env) (args : list string) (timeout : Z)
    (kw : kwargs) : M state unit :=
  let s := String.concat " " args in
  sb <- gets statusbar ;;
  match sb with
  | Some w => direct (Method w (statusbar_showMessage s (timeout * 1000)))
  | None => ret tt
  end ;;
  logMessage (called_from "showMessage" e) (VStr <$> args)
    (default (VInt INFO) (kw_level kw)) (kw_loggername kw) (kw_timestamp kw).

Definition clearMessage : M state unit :=
  sb <- gets statusbar ;;
  match sb with
  | Some w => direct (Method w statusbar_clearMessage)
  | None => raise AttributeError
  end.

(** *** Runs of [logMessage] calls *)

Record log_call : Type := {
  c_env : env;
  c_args : list value;
  c_level : value;
  c_loggername : option string;
  c_timestamp : option string
}.

Definition do_call (c : log_call) : M state unit :=
  logMessage (c_env c) (c_args c) (c_level c) (c_loggername c) (c_timestamp c).

(** One call after the other on the shared module state; a call that raises
    does not undo what it did, and the next call goes ahead. *)
Fixpoint run (calls : list log_call) (s : state) : list (result unit) * state :=
  match calls with
  | [] => ([], s)
  | c :: calls' =>
      let (r, s') := do_call c s in
      let (rs, s'') := run calls' s' in
      (r :: rs, s'')
  end.

End Msg.

(** ** Definitions used to state the properties *)

Module PathsSpec.
Import Paths.

(** Every entry of the file system lies in a directory. *)
Definition wf_fs (fs : filesystem) : bool :=
  bool_decide (set_Forall (fun p => isdir (parent p) fs = true) (dirs fs ∪ files fs)).

End PathsSpec.

Module MsgSpec.
Import Msg.

(** The level is one of the five recognized integers. *)
Definition recognized (level : value) : bool :=
  bool_decide (level ∈ VInt <$> [DEBUG; INFO; WARNING; ERROR; CRITICAL]).

(** The number the registry holds, or would assign, for a thread identity. *)
Definition next_label (s : state) (i : Z) : Z :=
  match threadIds s !! i with
  | Some n => n
  | None => _thread_count s + 1
  end.

(** Thread labels: the sentinel of the main thread, or a number. *)
Inductive label : Set := LMain | LNum (n : Z).

Definition render (l : label) : string :=
  match l with LMain => "M" | LNum n => pretty n end.

(** The label a call from thread [t] gets in state [s]. *)
Definition peek_label (s : state) (t : thread) : label :=
  match t with MainThread => LMain | Thread i => LNum (next_label s i) end.

(** The registry after a call from thread [t] has looked itself up. *)
Definition observe (t : thread) (s : state) : state :=
  match t with
  | MainThread => s
  | Thread i =>
      match threadIds s !! i with
      | Some _ => s
      | None => set_registry (_thread_count s + 1)
                  (<[i := _thread_count s + 1]> (threadIds s)) s
      end
  end.

(** The state after the first lines of [logMessage], for an integer level. *)
Definition prepared (logger : string) (L : Z) (s : state) : state :=
  set_stdch_loggers ({[logger]} ∪ stdch_loggers s)
    (set_stdch_level L
       (set_logger_level (<[logger := DEBUG]> (logger_level s)) s)).

(** What a log call with a recognized level emits. *)
Definition emitted (e : env) (args : list value) (L : Z)
    (loggername timestamp : option string) (thread : string) : record :=
  {| levelno := L;
     name := resolve_name e loggername;
     message := format_line (default (asctime e) timestamp)
                  (resolve_name e loggername) (default "" (levels !! L))
                  thread (String.concat " " (str <$> args)) |}.

Definition thread_of (c : log_call) : thread := current_thread (c_env c).

Definition ident_of (t : thread) : gset Z :=
  match t with MainThread => ∅ | Thread i => {[i]} end.

(** The worker thread identities that appear in a list of calls. *)
Fixpoint idents (calls : list log_call) : gset Z :=
  match calls with
  | [] => ∅
  | c :: calls' => ident_of (thread_of c) ∪ idents calls'
  end.

Definition level_int (level : value) : Z :=
  match level with VInt z => z | VStr _ => 0 end.

Definition emitted_by (c : log_call) (thread : string) : record :=
  emitted (c_env c) (c_args c) (level_int (c_level c)) (c_loggername c)
    (c_timestamp c) thread.

(** The label of a thread as a registry records it. *)
Definition label_in (ids : gmap Z Z) (t : thread) : label :=
  match t with
  | MainThread => LMain
  | Thread i => LNum (default 0 (ids !! i))
  end.

(** A call that gets past the level lookup. *)
Definition ok_call (c : log_call) : Prop := recognized (c_level c) = true.

Global Instance ok_call_dec c : Decision (ok_call c).
Proof. unfold ok_call. apply _. Defined.

(** The registry numbers its entries 1, 2, ... without repetition. *)
Definition registry_ok (s : state) : Prop :=
  _thread_count s = Z.of_nat (size (threadIds s)) /\
  (forall i n, threadIds s !! i = Some n -> 1 <= n <= _thread_count s) /\
  (forall i j n, threadIds s !! i = Some n -> threadIds s !! j = Some n -> i = j).

(** What a notification does to the tray icon. *)
Definition tray_events (t : widget) (title : string) (args : list string)
    (i : icon) (timeout : Z) : list event :=
  [Direct (Method t show);
   InMainThread (Method t (tray_showMessage title (String.concat "" args) i timeout));
   InMainThread (SingleShot timeout t hide)].

End MsgSpec.

(** ** Sample inputs *)

Module Samples.
Import Paths.

Definition sample_appdirs (f : appdirs_fn) (app : string) : path :=
  match f with
  | user_config_dir => of_components ["home"; "u"; ".config"; app]
  | site_config_dir => of_components ["etc"; "xdg"; app]
  | user_cache_dir => of_components ["home"; "u"; ".cache"; app]
  end.

Definition home_u : path := of_components ["home"; "u"].

Definition cache_xicam : path := of_components ["home"; "u"; ".cache"; "xicam"].

Definition fs_home : filesystem :=
  {| dirs := {[ of_components ["home"]; home_u ]}; files := ∅; readonly := ∅ |}.

Definition fs_cache : filesystem :=
  {| dirs := {[ of_components ["home"]; home_u;
               of_components ["home"; "u"; ".cache"]; cache_xicam ]};
     files := ∅; readonly := ∅ |}.

Definition fs_locked : filesystem :=
  {| dirs := {[ of_components ["home"]; home_u ]}; files := ∅;
     readonly := {[ home_u ]} |}.

End Samples.

Module MsgSamples.
Import Msg.

Definition worker_env : env :=
  {| current_thread := Thread 140213; asctime := "Mon Jan  1 00:00:00 2024";
     caller := "process" |}.

Definition other_env : env :=
  {| current_thread := Thread 140977; asctime := "Mon Jan  1 00:00:01 2024";
     caller := "fetch" |}.

Definition main_env : env :=
  {| current_thread := MainThread; asctime := "Mon Jan  1 00:00:02 2024";
     caller := "setup" |}.

Definition call_of (e : env) (text : string) (level : Z) : log_call :=
  {| c_env := e; c_args := [VStr text]; c_level := VInt level;
     c_loggername := None; c_timestamp := None |}.

Definition sample_run : list log_call :=
  [call_of worker_env "a" INFO; call_of main_env "b" WARNING;
   call_of other_env "c" ERROR; call_of worker_env "d" DEBUG].

Definition tray : widget := Widget 3.

Definition bar : widget := Widget 1.

End MsgSamples.

(** ** More of the file-system side *)

Module PathsMore.
Import Paths.

(** The last step of [os.makedirs(name, exist_ok=...)]: an [OSError] of
    [mkdir] is re-raised unless [exist_ok] is set and the name is a
    directory. *)
Definition mkdir_leaf (exist_ok : bool) (p : path) : M filesystem unit :=
  fun fs =>
    match mkdir p fs with
    | (Raise e, fs') =>
        if negb exist_ok || negb (isdir p fs') then (Raise e, fs')
        else (Return tt, fs')
    | r => r
    end.

(** [os.makedirs(name, exist_ok=exist_ok)]; the flag is handed down to the
    call that creates the ancestors. *)
Fixpoint makedirs_ok (exist_ok : bool) (p : path) : M filesystem unit :=
  match p with
  | [] => mkdir_leaf exist_ok []
  | _ :: head =>
      fun fs =>
        if negb (exists_ head fs)
        then (try_except (makedirs_ok exist_ok head) FileExistsError (ret tt) ;;
              mkdir_leaf exist_ok p) fs
        else mkdir_leaf exist_ok p fs
  end.

(** Line 28 of [msg/__init__.py]:
    [os.makedirs(os.path.join(paths.user_cache_dir, "logs"), exist_ok=True)]. *)
Definition make_logs_dir (user_cache_dir : path) : M filesystem unit :=
  makedirs_ok true (join user_cache_dir "logs").

(** The path is absent and can be created: every missing ancestor hangs,
    through missing ancestors, under an existing directory, and no directory
    on the way is read-only. *)
Fixpoint can_make (p : path) (fs : filesystem) : bool :=
  match p with
  | [] => false
  | _ :: head =>
      negb (exists_ p fs) && negb (bool_decide (head ∈ readonly fs))
      && (isdir head fs || can_make head fs)
  end.

(** What a call may do to the file system: add directories, each of them the
    path or one of its ancestors, and nothing else. *)
Definition grows_within (p : path) (fs fs' : filesystem) : Prop :=
  files fs' = files fs /\ readonly fs' = readonly fs /\
  dirs fs ⊆ dirs fs' /\
  (forall q, q ∈ dirs fs' -> q ∈ dirs fs \/ q `suffix_of` p).

Definition fs_with_file : filesystem :=
  {| dirs := {[ of_components ["home"]; Samples.home_u;
               of_components ["home"; "u"; ".cache"] ]};
     files := {[ Samples.cache_xicam ]}; readonly := ∅ |}.

End PathsMore.

(** ** More of the message facility *)

Module MsgMore.
Import Msg MsgSpec.

Definition lift {S A} (r : result A) : M S A := fun s => (r, s).

(** *** [logError] *)

(** The line feed the source writes as a backslash followed by n. *)
Definition nl : string := String (Ascii.ascii_of_nat 10) "".

Definition banner : string :=
  "The following error was handled safely by Xi-cam. It is displayed here for debugging.".

(** The keyword arguments of [logError]: [level] (overwritten), [loggername],
    which may be missing ([None]) or given, possibly as Python's [None]
    ([Some None]), and [timestamp]. *)
Record error_kwargs : Type := {
  ek_level : option value;
  ek_loggername : option (option string);
  ek_timestamp : option string
}.

(** What [logError] reads from its surroundings: the calling thread, the
    clock, and the name of the frame that called it
    ([inspect.stack()[1][3]]).  There is no such frame when the interpreter
    itself calls [logError], as it does with [sys.excepthook]. *)
Record hook_env : Type := {
  h_thread : thread;
  h_asctime : string;
  h_outer : option string
}.

(** The surroundings of the [logMessage] calls that [logError] makes. *)
Definition inside_logError (h : hook_env) : env :=
  {| current_thread := h_thread h; asctime := h_asctime h; caller := "logError" |}.

Section LogError.

(** Python objects handed in as exception, value and traceback, with what
    the interpreter and [traceback] do to them: truth value, the
    [__traceback__] attribute (an [AttributeError] where there is none),
    [traceback.format_exception] and [traceback.format_exception_only]. *)
Variable object : Type.
Variable truth : object -> bool.
Variable get_traceback : object -> result (option object).
Variable format_exception : object -> object -> option object -> result (list string).
Variable format_exception_only : object -> object -> result (list string).

(** [if not value: value = exception] *)
Definition default_value (exception : object) (value : option object) : object :=
  match value with
  | Some v => if truth v then v else exception
  | None => exception
  end.

(** [if not tb: tb = exception.__traceback__] *)
Definition default_tb (exception : object) (tb : option object)
    : result (option object) :=
  match tb with
  | Some t => if truth t then Return (Some t) else get_traceback exception
  | None => get_traceback exception
  end.

(** [inspect.stack()[1][3]] in [logError]: an [IndexError] when the stack
    ends with [logError]'s own frame. *)
Definition outer_name {S} (h : hook_env) : M S (option string) :=
  match h_outer h with
  | Some f => ret (Some f)
  | None => raise IndexError
  end.

Definition logError (h : hook_env) (exception : object) (value tb : option object)
    (kw : error_kwargs) : M state unit :=
  let value := default_value exception value in
  tb <- lift (default_tb exception tb) ;;
  let level := VInt ERROR in
  loggername <- match ek_loggername kw with
                | Some n => ret n
                | None => outer_name h
                end ;;
  let here := inside_logError h in
  logMessage here [VStr nl; VStr banner] level loggername (ek_timestamp kw) ;;
  try_except
    (lines <- lift (format_exception exception value tb) ;;
     logMessage here (VStr nl :: (VStr <$> lines)) level loggername (ek_timestamp kw))
    AttributeError
    (lines <- lift (format_exception_only exception value) ;;
     logMessage here (VStr nl :: (VStr <$> lines)) level loggername (ek_timestamp kw)).

End LogError.

(** The logger name [logError] hands to [logMessage]: the keyword when it
    is given, the name of the calling frame otherwise. *)
Definition error_loggername (h : hook_env) (kw : error_kwargs) : option string :=
  match ek_loggername kw with
  | Some n => n
  | None => h_outer h
  end.

(** The channel [logError] logs in. *)
Definition error_channel (h : hook_env) (kw : error_kwargs) : string :=
  resolve_name (inside_logError h) (error_loggername h kw).

(** The record [logError] writes for the given parts. *)
Definition error_record (h : hook_env) (kw : error_kwargs) (thread : string)
    (parts : list string) : record :=
  {| levelno := ERROR;
     name := error_channel h kw;
     message := format_line (default (h_asctime h) (ek_timestamp kw))
                  (error_channel h kw) "ERROR" thread
                  (String.concat " " parts) |}.

(** *** Sequences of operations *)

Definition default_kwargs : kwargs :=
  {| kw_level := None; kw_loggername := None; kw_timestamp := None |}.

Inductive op : Type :=
| LogMessage (args : list value) (level : value)
    (loggername timestamp : option string)
| ShowMessage (args : list string) (timeout : Z) (kw : kwargs)
| NotifyMessage (args : list string) (timeout : Z) (title : string) (level : value)
| ShowProgress (v minval maxval : Z)
| ShowBusy
| HideBusy
| ClearMessage.

Definition exec (e : env) (o : op) : M state unit :=
  match o with
  | LogMessage args level loggername timestamp =>
      logMessage e args level loggername timestamp
  | ShowMessage args timeout kw => showMessage e args timeout kw
  | NotifyMessage args timeout title level =>
      notifyMessage e args timeout title level
  | ShowProgress v minval maxval => showProgress v minval maxval
  | ShowBusy => showBusy
  | HideBusy => hideBusy
  | ClearMessage => clearMessage
  end.

(** Operations one after the other on the module state; like [run], an
    operation that raises does not stop the following ones. *)
Fixpoint exec_all (ops : list (env * op)) (s : state) : state :=
  match ops with
  | [] => s
  | (e, o) :: ops' => exec_all ops' (snd (exec e o s))
  end.

(** One operation took the state from [s] to [s']: the widget slots are
    untouched, the GUI trace has only grown, and either nothing was logged
    and the thread registry is as before, or one record was appended and the
    calling thread has been looked up in the registry. *)
Definition step_ok (t : thread) (s s' : state) : Prop :=
  statusbar s' = statusbar s /\ progressbar s' = progressbar s /\
  trayicon s' = trayicon s /\
  gui s `prefix_of` gui s' /\
  ((sink s' = sink s /\ threadIds s' = threadIds s /\
    _thread_count s' = _thread_count s) \/
   (exists r, sink s' = (sink s ++ [r])%list /\
              threadIds s' = threadIds (observe t s) /\
              _thread_count s' = _thread_count (observe t s))).

Definition logs (o : op) : bool :=
  match o with
  | LogMessage _ _ _ _ | ShowMessage _ _ _ | NotifyMessage _ _ _ _ => true
  | _ => false
  end.

(** The widget calls the facility makes on the calling thread: hiding and
    resetting the progress bar, showing and clearing the status-bar
    message, and showing the tray icon.  Every other call is handed to the
    GUI thread. *)
Definition direct_kind (ev : event) : bool :=
  match ev with
  | InMainThread _ => true
  | Direct (Method _ hide) => true
  | Direct (Method _ (setRange minval maxval)) =>
      bool_decide (minval = 0 /\ maxval = 100)
  | Direct (Method _ (statusbar_showMessage _ _)) => true
  | Direct (Method _ statusbar_clearMessage) => true
  | Direct (Method _ show) => true
  | Direct _ => false
  end.

(** The status-bar call [showMessage] makes, if a status bar is there. *)
Definition status_events (sb : option widget) (args : list string)
    (timeout : Z) : list event :=
  match sb with
  | Some w => [Direct (Method w (statusbar_showMessage (String.concat " " args)
                                   (timeout * 1000)))]
  | None => []
  end.

(** The thread identities of the worker threads among the callers. *)
Fixpoint op_idents (ops : list (env * op)) : gset Z :=
  match ops with
  | [] => ∅
  | (e, _) :: ops' => ident_of (current_thread e) ∪ op_idents ops'
  end.

End MsgMore.

Module MoreSamples.
Import Msg MsgMore.

(** A stand-in for exceptions: [true] carries a traceback, [false] has no
    [__traceback__] attribute at all. *)
Definition sample_truth (b : bool) : bool := true.
Definition sample_get_traceback (b : bool) : result (option bool) :=
  if b then Return (Some true) else Raise AttributeError.
Definition sample_format (x v : bool) (tb : option bool) : result (list string) :=
  if x then Return ["Traceback"; "ValueError: bad"] else Raise AttributeError.
Definition sample_format_only (x v : bool) : result (list string) :=
  Return ["ValueError: bad"].
Definition no_kwargs : error_kwargs :=
  {| ek_level := Some (VInt DEBUG); ek_loggername := None; ek_timestamp := None |}.
(** [logError] called from a function, and called by the interpreter. *)
Definition from_process : hook_env :=
  {| h_thread := Thread 140213; h_asctime := "Mon Jan  1 00:00:00 2024";
     h_outer := Some "process" |}.
Definition as_excepthook : hook_env :=
  {| h_thread := MainThread; h_asctime := "Mon Jan  1 00:00:03 2024";
     h_outer := None |}.
Definition sample_ops : list (env * op) :=
  [(MsgSamples.worker_env, ShowBusy);
   (MsgSamples.worker_env, ShowMessage ["loading"] 5 default_kwargs);
   (MsgSamples.main_env, LogMessage [VStr "x"] (VInt 999) None None);
   (MsgSamples.other_env, NotifyMessage ["done"] 8000 "t" (VInt INFO));
   (MsgSamples.worker_env, HideBusy)].
Definition full_state : state :=
  set_statusbar (Some MsgSamples.bar)
    (set_progressbar (Some (Widget 2)) (initial_state (Some MsgSamples.tray))).

End MoreSamples.

(** ** What the handlers write *)

Module Handlers.
Import Msg MsgSpec MsgMore.

(** [logging._levelToName] *)
Definition _levelToName : gmap Z string :=
  list_to_map [(CRITICAL, "CRITICAL"); (ERROR, "ERROR"); (WARNING, "WARNING");
               (INFO, "INFO"); (DEBUG, "DEBUG"); (NOTSET, "NOTSET")].

(** [logging.getLevelName] of an integer level. *)
Definition getLevelName (level : Z) : string :=
  default ("Level " +:+ pretty level) (_levelToName !! level).

(** The logger named [n] is the logger named [logger] or one of its
    ancestors: the root logger, which [logging.getLogger] returns for the
    name [root], or a logger whose name followed by a dot begins
    [logger]. *)
Definition on_chain (n logger : string) : bool :=
  bool_decide (n = logger) || bool_decide (n = "root")
  || String.prefix (n +:+ ".") logger.

(** [Logger.callHandlers] for the stream handler [stdch] of line 47, which
    line 227 attaches to every logger [logMessage] is called for: the
    record goes to the handlers of its logger and of every ancestor, so
    [stdch] handles it once for each of these loggers it is attached to,
    when the record's level reaches the handler's threshold.  The handler
    has no formatter and writes the message. *)
Definition stdch_copies (s : state) (r : record) : nat :=
  if bool_decide (stdch_level s <= levelno r)
  then size (filter (fun n => on_chain n (name r) = true) (stdch_loggers s))
  else 0%nat.

Definition stdch_writes (s : state) (r : record) : list string :=
  replicate (stdch_copies s r) (message r).

(** The file handler that [logging.basicConfig(filename=..., level=DEBUG)]
    of line 29 puts on the root logger, with the format
    [%(levelname)s:%(name)s:%(message)s]; every record reaches it once. *)
Definition file_writes (r : record) : string :=
  getLevelName (levelno r) +:+ ":" +:+ name r +:+ ":" +:+ message r.

(** What has been written: the entries of the stream handler and those of
    the log file, in order; each entry is followed by a line terminator. *)
Record written : Type := {
  stderr : list string;
  out_log : list string
}.

(** A run of [logMessage] calls with what its records make the handlers
    write.  A record is handled inside the call that logs it, under the
    handler threshold and the attachments that call has set and leaves. *)
Fixpoint run_written (calls : list log_call) (s : state) : written :=
  match calls with
  | [] => {| stderr := []; out_log := [] |}
  | c :: calls' =>
      let s' := snd (do_call c s) in
      let new := drop (length (sink s)) (sink s') in
      let rest := run_written calls' s' in
      {| stderr := (new ≫= stdch_writes s') ++ stderr rest;
         out_log := (file_writes <$> new) ++ out_log rest |}
  end.





End Handlers.

(** ** Properties of [paths.py] *)

Module PathsFacts.
Import Paths PathsSpec.

Lemma mkdir_exists p fs :
  exists_ p fs = true -> mkdir p fs = (Raise FileExistsError, fs).
Proof. intros H. unfold mkdir. by rewrite H. Qed.

Lemma mkdir_inv p fs r fs' :
  mkdir p fs = (r, fs') ->
  (r = Return tt /\ fs' = add_dir p fs /\ isdir (parent p) fs = true) \/
  (exists e, r = Raise e /\ fs' = fs /\ (e = FileExistsError -> exists_ p fs = true)).
Proof.
  unfold mkdir. intros H.
  destruct (exists_ p fs) eqn:Ep.
  { right. exists FileExistsError. by simplify_eq. }
  destruct (exists_ (parent p) fs) eqn:Eh; simpl in H.
  2:{ right. exists FileNotFoundError. by simplify_eq. }
  destruct (isdir (parent p) fs) eqn:Ed; simpl in H.
  2:{ right. exists NotADirectoryError. by simplify_eq. }
  destruct (bool_decide (parent p ∈ readonly fs)).
  { right. exists PermissionError. by simplify_eq. }
  left. by simplify_eq.
Qed.

Lemma isdir_add_dir q p fs : isdir q fs = true -> isdir q (add_dir p fs) = true.
Proof.
  unfold isdir, add_dir. simpl. intros H.
  apply orb_true_iff in H as [H|H]; apply orb_true_iff; [by left|right].
  apply bool_decide_eq_true in H. apply bool_decide_eq_true. set_solver.
Qed.

Lemma exists_add_dir q p fs : exists_ q fs = true -> exists_ q (add_dir p fs) = true.
Proof.
  unfold exists_. intros H.
  apply orb_true_iff in H as [H|H]; apply orb_true_iff; [left|by right].
  by apply isdir_add_dir.
Qed.

Lemma exists_add_dir_same p fs : exists_ p (add_dir p fs) = true.
Proof.
  unfold exists_, isdir, add_dir. simpl.
  apply orb_true_iff. left. apply orb_true_iff. right.
  apply bool_decide_eq_true. set_solver.
Qed.

Lemma isdir_exists p fs : isdir p fs = true -> exists_ p fs = true.
Proof. unfold exists_. intros ->. done. Qed.

(** After [makedirs] returned, or raised [FileExistsError], the path and its
    parent exist. *)
Lemma makedirs_post p : forall fs r fs',
  makedirs p fs = (r, fs') ->
  r = Return tt \/ r = Raise FileExistsError ->
  exists_ p fs' = true /\ exists_ (parent p) fs' = true.
Proof.
  assert (Hleaf : forall c head fs r fs',
    exists_ head fs = true -> mkdir (c :: head) fs = (r, fs') ->
    r = Return tt \/ r = Raise FileExistsError ->
    exists_ (c :: head) fs' = true /\ exists_ head fs' = true).
  { intros c head fs r fs' Hh Hm Hr.
    apply mkdir_inv in Hm as [(-> & -> & _)|(e & -> & -> & He)].
    - split; [apply exists_add_dir_same | by apply exists_add_dir].
    - destruct Hr as [?|Hr]; [done|]. split; [|done]. apply He. congruence. }
  induction p as [|c head IH]; intros fs r fs' H Hr.
  - simpl in H. rewrite mkdir_exists in H by done. by simplify_eq.
  - simpl in H. destruct (exists_ head fs) eqn:Eh; simpl in H.
    { by eapply Hleaf. }
    unfold bind, try_except in H.
    destruct (makedirs head fs) as [r1 fs1] eqn:E1.
    destruct r1 as [[]|e1].
    + eapply Hleaf; [|done..]. by eapply (IH fs (Return tt)); eauto.
    + destruct (decide (e1 = FileExistsError)) as [->|Hne].
      * unfold ret in H. eapply Hleaf; [|done..].
        by eapply (IH fs (Raise FileExistsError)); eauto.
      * simplify_eq. destruct Hr; simplify_eq.
Qed.

Lemma makedirs_existing p fs :
  exists_ p fs = true -> exists_ (parent p) fs = true ->
  makedirs p fs = (Raise FileExistsError, fs).
Proof.
  destruct p as [|c head]; simpl; intros Hp Hh.
  - by apply mkdir_exists.
  - rewrite Hh. simpl. by apply mkdir_exists.
Qed.

Lemma init_dir_existing p fs :
  exists_ p fs = true -> exists_ (parent p) fs = true ->
  init_dir p fs = (Return tt, fs).
Proof.
  intros Hp Hh. unfold init_dir, try_except.
  by rewrite makedirs_existing.
Qed.

Lemma wf_fs_parent fs p :
  wf_fs fs = true -> isdir p fs = true -> isdir (parent p) fs = true.
Proof.
  intros Hwf Hp. apply bool_decide_eq_true in Hwf.
  unfold isdir in Hp. apply orb_true_iff in Hp as [Hp|Hp].
  - apply bool_decide_eq_true in Hp. by subst.
  - apply bool_decide_eq_true in Hp. apply Hwf. set_solver.
Qed.

(** C6: [init_dir] returns without error, and changes nothing, when the
    directory already exists; a call that returned can be repeated at once
    and returns again, the path now existing; and an error of [os.makedirs]
    other than [FileExistsError] reaches the caller as it is. *)
Theorem init_dir_spec (fs : filesystem) (p : path) :
  (wf_fs fs = true -> isdir p fs = true -> init_dir p fs = (Return tt, fs)) /\
  (forall fs', init_dir p fs = (Return tt, fs') ->
               exists_ p fs' = true /\ init_dir p fs' = (Return tt, fs')) /\
  (forall e fs', makedirs p fs = (Raise e, fs') -> e <> FileExistsError ->
                 init_dir p fs = (Raise e, fs')).
Proof.
  split; [|split].
  - intros Hwf Hp. apply init_dir_existing.
    + by apply isdir_exists.
    + apply isdir_exists. by apply wf_fs_parent.
  - intros fs' H. unfold init_dir, try_except in H.
    destruct (makedirs p fs) as [r fs1] eqn:E.
    assert (r = Return tt \/ r = Raise FileExistsError) as Hr.
    { destruct r as [[]|e]; [by left|].
      destruct (decide (e = FileExistsError)) as [->|]; [by right|done]. }
    assert (fs1 = fs') as ->.
    { destruct r as [[]|e]; [by simplify_eq|].
      destruct (decide (e = FileExistsError)); unfold ret in H; by simplify_eq. }
    destruct (makedirs_post _ _ _ _ E Hr) as [Hp Hh].
    split; [done|by apply init_dir_existing].
  - intros e fs' H Hne. unfold init_dir, try_except. rewrite H.
    by destruct (decide (e = FileExistsError)).
Qed.

Lemma init_dir_spec_witness :
  init_dir Samples.cache_xicam Samples.fs_cache = (Return tt, Samples.fs_cache) /\
  (let fs1 := snd (init_dir Samples.cache_xicam Samples.fs_home) in
   init_dir Samples.cache_xicam fs1 = (Return tt, fs1)) /\
  init_dir Samples.cache_xicam Samples.fs_locked
    = (Raise PermissionError, Samples.fs_locked).
Proof.
  split; [|split].
  - apply (proj1 (init_dir_spec Samples.fs_cache Samples.cache_xicam));
      vm_compute; reflexivity.
  - apply (proj1 (proj2 (init_dir_spec Samples.fs_home Samples.cache_xicam))).
    vm_compute; reflexivity.
  - apply (proj2 (proj2 (init_dir_spec Samples.fs_locked Samples.cache_xicam))).
    + vm_compute; reflexivity.
    + discriminate.
Defined.

(** C2: on every operating system the module body stops with a [TypeError]
    at the first of lines 11 and 13 it reaches: lines 5 to 7 have rebound
    the names of the [appdirs] functions to the strings they returned, and
    the plugin directories call those names again.  Neither
    [user_plugin_dir] nor [site_plugin_dir] is ever bound, and no directory
    is created. *)
Theorem paths_module_raises_TypeError
    (appdirs : appdirs_fn -> string -> path) (home : path) (op_sys : string)
    (fs0 : filesystem) :
  let r := paths_module appdirs home op_sys (fresh_module fs0) in
  fst r = Raise TypeError /\
  globals (snd r) !! "user_plugin_dir" = None /\
  globals (snd r) !! "site_plugin_dir" = None /\
  fs (snd r) = fs0.
Proof.
  unfold paths_module.
  destruct (decide (op_sys = "Darwin")); vm_compute; auto.
Qed.

Example paths_module_Darwin :
  fst (paths_module Samples.sample_appdirs Samples.home_u "Darwin"
         (fresh_module Samples.fs_home)) = Raise TypeError.
Proof. vm_compute. reflexivity. Qed.

End PathsFacts.

(** ** Properties of the message facility *)

Module MsgFacts.
Import Msg MsgSpec.

Lemma thread_label_eq t s :
  thread_label t s = (Return (render (peek_label s t)), observe t s).
Proof.
  destruct t as [|i]; [done|].
  unfold thread_label, bind, threadIds_getitem, peek_label, next_label, observe.
  destruct (threadIds s !! i) as [n|] eqn:E; reflexivity.
Qed.

Lemma levels_lookup L :
  levels !! L =
    if decide (L = DEBUG) then Some "DEBUG"
    else if decide (L = INFO) then Some "INFO"
    else if decide (L = WARNING) then Some "WARNING"
    else if decide (L = ERROR) then Some "ERROR"
    else if decide (L = CRITICAL) then Some "CRITICAL"
    else None.
Proof.
  unfold levels. simpl.
  repeat (rewrite lookup_insert; case_decide; [subst; repeat case_decide; try done|]).
  rewrite lookup_empty. repeat case_decide; congruence.
Qed.

Lemma recognized_int L :
  recognized (VInt L) = true <-> is_Some (levels !! L).
Proof.
  unfold recognized. rewrite bool_decide_eq_true, levels_lookup.
  rewrite list_elem_of_fmap. split.
  - intros (z & [= ->] & Hz). set_unfold.
    destruct Hz as [->|[->|[->|[->|[->|[]]]]]]; by eexists.
  - intros [n Hn]. exists L. split; [done|]. set_unfold.
    repeat case_decide; subst; auto 10. done.
Qed.

Lemma recognized_str s : recognized (VStr s) = false.
Proof.
  unfold recognized. apply bool_decide_eq_false.
  rewrite list_elem_of_fmap. by intros (z & [=] & _).
Qed.

Lemma recognized_threshold L : recognized (VInt L) = true -> DEBUG <= L.
Proof.
  unfold recognized. rewrite bool_decide_eq_true, list_elem_of_fmap.
  intros (z & [= ->] & Hz). set_unfold. unfold DEBUG, INFO, WARNING, ERROR, CRITICAL in *. lia.
Qed.

Lemma logMessage_int e args L loggername timestamp s :
  logMessage e args (VInt L) loggername timestamp s =
    let logger := resolve_name e loggername in
    let s1 := prepared logger L s in
    match levels !! L with
    | None => (Raise KeyError, s1)
    | Some levelname =>
        Logger_log logger (VInt L)
          (VStr (format_line (default (asctime e) timestamp) logger levelname
                   (render (peek_label s1 (current_thread e)))
                   (String.concat " " (str <$> args))))
          (observe (current_thread e) s1)
    end.
Proof.
  unfold logMessage, try_except, Handler_setLevel, Logger_setLevel,
    Logger_addHandler, levels_getitem, _checkLevel, bind, ret, modify.
  fold (resolve_name e loggername). 
  destruct (levels !! L) as [n|] eqn:E; [|reflexivity].
  cbv beta iota zeta.
  rewrite thread_label_eq. reflexivity.
Qed.

Lemma observe_frame t s :
  sink (observe t s) = sink s /\ gui (observe t s) = gui s /\
  logger_level (observe t s) = logger_level s /\
  statusbar (observe t s) = statusbar s /\
  progressbar (observe t s) = progressbar s /\
  trayicon (observe t s) = trayicon s.
Proof.
  destruct t as [|i]; simpl; [done|].
  by destruct (threadIds s !! i).
Qed.

Lemma observe_prepared t logger L s :
  threadIds (observe t (prepared logger L s)) = threadIds (observe t s) /\
  _thread_count (observe t (prepared logger L s)) = _thread_count (observe t s).
Proof.
  destruct t as [|i]; simpl; [done|].
  by destruct (threadIds s !! i).
Qed.

Lemma logMessage_recognized e args L loggername timestamp s :
  recognized (VInt L) = true ->
  let r := logMessage e args (VInt L) loggername timestamp s in
  fst r = Return tt /\
  sink (snd r) = (sink s ++ [emitted e args L loggername timestamp
                              (render (peek_label s (current_thread e)))])%list /\
  gui (snd r) = gui s /\
  threadIds (snd r) = threadIds (observe (current_thread e) s) /\
  _thread_count (snd r) = _thread_count (observe (current_thread e) s) /\
  statusbar (snd r) = statusbar s /\ progressbar (snd r) = progressbar s /\
  trayicon (snd r) = trayicon s.
Proof.
  intros Hrec. pose proof (recognized_threshold _ Hrec) as Hth.
  apply recognized_int in Hrec as [n Hn].
  rewrite logMessage_int. cbv zeta. rewrite Hn.
  set (logger := resolve_name e loggername).
  set (s1 := prepared logger L s).
  destruct (observe_frame (current_thread e) s1) as (Hs & Hg & Hl & Hsb & Hpb & Htr).
  destruct (observe_prepared (current_thread e) logger L s) as [Hids Hcnt].
  fold s1 in Hids, Hcnt.
  unfold Logger_log. rewrite Hl.
  replace (logger_level s1 !! logger) with (Some DEBUG)
    by (symmetry; apply lookup_insert_eq).
  simpl default. rewrite bool_decide_eq_true_2 by done.
  simpl. rewrite Hs, Hg, Hids, Hcnt, Hsb, Hpb, Htr.
  unfold emitted. rewrite Hn. fold logger. 
  repeat split; reflexivity.
Qed.

Lemma logMessage_unrecognized e args level loggername timestamp s :
  recognized level = false ->
  let r := logMessage e args level loggername timestamp s in
  raises r = true /\
  sink (snd r) = sink s /\ gui (snd r) = gui s /\
  threadIds (snd r) = threadIds s /\ _thread_count (snd r) = _thread_count s /\
  statusbar (snd r) = statusbar s /\ progressbar (snd r) = progressbar s /\
  trayicon (snd r) = trayicon s.
Proof.
  intros Hrec. destruct level as [L|x].
  - rewrite logMessage_int. cbv zeta.
    destruct (levels !! L) as [n|] eqn:E.
    + assert (recognized (VInt L) = true) by (apply recognized_int; eauto).
      congruence.
    + done.
  - unfold logMessage, try_except, Handler_setLevel, Logger_setLevel,
      Logger_addHandler, levels_getitem, _checkLevel, Logger_log, bind, ret,
      raise, modify.
    destruct (_nameToLevel !! x); done.
Qed.

Lemma observe_registry_ok t s : registry_ok s -> registry_ok (observe t s).
Proof.
  intros (Hc & Hr & Hi). destruct t as [|i]; simpl; [done|].
  destruct (threadIds s !! i) as [n|] eqn:E; [done|].
  split; [|split]; simpl.
  - rewrite map_size_insert_None by done. lia.
  - intros j n. rewrite lookup_insert. case_decide.
    + intros [= <-]. specialize (Hr j). lia.
    + intros H'. specialize (Hr _ _ H'). lia.
  - intros j k n. rewrite !lookup_insert.
    repeat case_decide; subst; try done.
    + intros [= <-] H'. specialize (Hr _ _ H'). lia.
    + intros H' [= <-]. specialize (Hr _ _ H'). lia.
    + apply Hi.
Qed.

Lemma observe_mono t s i n :
  threadIds s !! i = Some n -> threadIds (observe t s) !! i = Some n.
Proof.
  intros H. destruct t as [|j]; simpl; [done|].
  destruct (threadIds s !! j) as [m|] eqn:E; [done|]. simpl.
  rewrite lookup_insert_ne; [done|]. intros ->. congruence.
Qed.

Lemma observe_dom t s :
  dom (threadIds (observe t s)) = dom (threadIds s) ∪ ident_of t.
Proof.
  destruct t as [|j]; simpl; [set_solver|].
  destruct (threadIds s !! j) as [m|] eqn:E; simpl.
  - apply (elem_of_dom_2 (D := gset Z)) in E. set_solver.
  - rewrite dom_insert_L. set_solver.
Qed.

Lemma observe_label t s :
  label_in (threadIds (observe t s)) t = peek_label s t.
Proof.
  destruct t as [|j]; simpl; [done|]. unfold next_label.
  destruct (threadIds s !! j) as [m|] eqn:E; simpl.
  - by rewrite E.
  - by rewrite lookup_insert_eq.
Qed.

Lemma observe_fresh i s :
  registry_ok s -> i ∉ dom (threadIds s) ->
  threadIds (observe (Thread i) s) !! i
    = Some (Z.of_nat (size (dom (threadIds s))) + 1).
Proof.
  intros (Hc & _) Hi. apply not_elem_of_dom in Hi. simpl. rewrite Hi. simpl.
  rewrite lookup_insert_eq, size_dom. by rewrite Hc.
Qed.

Lemma run_cons c calls s :
  run (c :: calls) s =
    (fst (do_call c s) :: fst (run calls (snd (do_call c s))),
     snd (run calls (snd (do_call c s)))).
Proof.
  simpl. destruct (do_call c s) as [r s1]. simpl.
  by destruct (run calls s1).
Qed.

Lemma idents_lookup calls k c i :
  calls !! k = Some c -> thread_of c = Thread i -> i ∈ idents calls.
Proof.
  revert k. induction calls as [|c' calls IH]; intros [|k]; simpl; try done.
  - intros [= ->] ->. set_solver.
  - intros H Ht. apply elem_of_union_r. eauto.
Qed.

Lemma label_in_mono ids ids' t :
  (forall i n, ids !! i = Some n -> ids' !! i = Some n) ->
  ident_of t ⊆ dom ids ->
  label_in ids' t = label_in ids t.
Proof.
  intros Hm Hd. destruct t as [|i]; simpl; [done|].
  assert (i ∈ dom ids) as [n Hn]%elem_of_dom by set_solver.
  by rewrite Hn, (Hm _ _ Hn).
Qed.

(** The run invariant: every call with a recognized level adds one record,
    labelled from the registry, which only grows. *)
Lemma run_spec calls : forall s,
  registry_ok s ->
  let sf := snd (run calls s) in
  let ok := filter ok_call calls in
  exists labels : list label,
    sink sf = (sink s ++ zip_with emitted_by ok (render <$> labels))%list /\
    length labels = length ok /\
    registry_ok sf /\
    (forall i n, threadIds s !! i = Some n -> threadIds sf !! i = Some n) /\
    dom (threadIds sf) = dom (threadIds s) ∪ idents ok /\
    (forall k c, ok !! k = Some c ->
                 labels !! k = Some (label_in (threadIds sf) (thread_of c))) /\
    (forall k c i, ok !! k = Some c -> thread_of c = Thread i ->
                   i ∉ dom (threadIds s) ∪ idents (take k ok) ->
                   threadIds sf !! i
                     = Some (Z.of_nat (size (dom (threadIds s) ∪ idents (take k ok))) + 1)).
Proof.
  induction calls as [|c calls IH]; intros s Hok; cbv zeta.
  - exists []. simpl. rewrite app_nil_r.
    do 4 (split; [done|]). split; [set_solver|]. split; intros; done.
  - rewrite run_cons. simpl snd.
    set (s1 := snd (do_call c s)).
    destruct (decide (ok_call c)) as [Hc|Hc].
    + rewrite filter_cons_True by done.
      unfold ok_call in Hc. destruct (c_level c) as [L|x] eqn:EL;
        [|by rewrite recognized_str in Hc].
      pose proof (logMessage_recognized (c_env c) (c_args c) L
                    (c_loggername c) (c_timestamp c) s Hc) as H.
      cbv zeta in H. destruct H as (_ & Hs & _ & Hids & Hcnt & _).
      assert (do_call c s = logMessage (c_env c) (c_args c) (VInt L)
                              (c_loggername c) (c_timestamp c) s) as Hdo
        by (unfold do_call; by rewrite EL).
      rewrite <- Hdo in Hs, Hids, Hcnt. fold s1 in Hs, Hids, Hcnt.
      fold (thread_of c) in Hs, Hids, Hcnt.
      pose proof (observe_registry_ok (thread_of c) s Hok) as Hok1.
      assert (registry_ok s1) as Hok1'.
      { unfold registry_ok. rewrite Hids, Hcnt. exact Hok1. }
      destruct (IH s1 Hok1') as (labels & Hsink & Hlen & Hokf & Hmono & Hdom & Hlab & Hfst).
      exists (label_in (threadIds s1) (thread_of c) :: labels).
      assert (Hd1 : dom (threadIds s1) = dom (threadIds s) ∪ ident_of (thread_of c)).
      { rewrite Hids. apply observe_dom. }
      split; [|split; [|split; [|split; [|split; [|split]]]]].
      * rewrite Hsink, Hs. simpl. rewrite <- app_assoc. simpl.
        do 2 f_equal. unfold emitted_by. rewrite EL. simpl.
        by rewrite Hids, observe_label.
      * simpl. by rewrite Hlen.
      * done.
      * intros i n Hi. apply Hmono. rewrite Hids. by apply observe_mono.
      * rewrite Hdom, Hd1. simpl. set_solver.
      * intros [|k] c'; simpl.
        -- intros [= <-]. f_equal. symmetry. apply label_in_mono; [done|].
           rewrite Hd1. set_solver.
        -- apply Hlab.
      * intros [|k] c' i; simpl.
        -- intros [= <-] Ht Hi. apply Hmono. rewrite Hids, Ht.
           replace (dom (threadIds s) ∪ ∅) with (dom (threadIds s)) by set_solver.
           apply observe_fresh; [done|set_solver].
        -- intros Hk Ht Hi.
           replace (dom (threadIds s) ∪ (ident_of (thread_of c) ∪ idents (take k (filter ok_call calls))))
             with (dom (threadIds s1) ∪ idents (take k (filter ok_call calls)))
             by (rewrite Hd1; set_solver).
           apply (Hfst k c' i Hk Ht). rewrite Hd1. set_solver.
    + rewrite filter_cons_False by done.
      unfold ok_call in Hc. apply not_true_is_false in Hc.
      pose proof (logMessage_unrecognized (c_env c) (c_args c) (c_level c)
                    (c_loggername c) (c_timestamp c) s Hc) as H.
      cbv zeta in H. destruct H as (_ & Hs & _ & Hids & Hcnt & _).
      fold (do_call c) in Hs, Hids, Hcnt. fold s1 in Hs, Hids, Hcnt.
      assert (registry_ok s1) as Hok1.
      { unfold registry_ok. rewrite Hids, Hcnt. exact Hok. }
      destruct (IH s1 Hok1) as (labels & Hsink & Hlen & Hokf & Hmono & Hdom & Hlab & Hfst).
      exists labels. rewrite Hs, Hids in *. done.
Qed.

Lemma initial_registry_ok s :
  _thread_count s = 0 -> threadIds s = ∅ -> registry_ok s.
Proof.
  intros Hc Hi. unfold registry_ok. rewrite Hc, Hi.
  split; [by rewrite map_size_empty|]. split; intros ??; by rewrite lookup_empty.
Qed.


(** C5: starting from an empty registry, the calls that get as far as the
    thread lookup (those with a recognized level) are labelled as follows.
    A call from the main thread gets the sentinel.  A call from a worker
    thread gets a number that is at least 1; two worker calls carry the same
    number exactly when they come from the same thread identity; and at the
    first call of an identity the number is one more than the number of
    distinct identities seen before it.  Different numbers are written
    differently. *)
Theorem thread_labels_first_come (calls : list log_call) (s : state) :
  _thread_count s = 0 -> threadIds s = ∅ ->
  let ok := filter ok_call calls in
  exists labels : list label,
    sink (snd (run calls s))
      = (sink s ++ zip_with emitted_by ok (render <$> labels))%list /\
    length labels = length ok /\
    (forall k c, ok !! k = Some c -> thread_of c = MainThread ->
                 labels !! k = Some LMain) /\
    (forall k c i, ok !! k = Some c -> thread_of c = Thread i ->
                   exists n, labels !! k = Some (LNum n) /\ 1 <= n) /\
    (forall j k cj ck i i' n n',
        ok !! j = Some cj -> ok !! k = Some ck ->
        thread_of cj = Thread i -> thread_of ck = Thread i' ->
        labels !! j = Some (LNum n) -> labels !! k = Some (LNum n') ->
        (n = n' <-> i = i')) /\
    (forall k c i n,
        ok !! k = Some c -> thread_of c = Thread i ->
        i ∉ idents (take k ok) -> labels !! k = Some (LNum n) ->
        n = Z.of_nat (size (idents (take k ok))) + 1) /\
    (forall n n', render (LNum n) = render (LNum n') -> n = n').
Proof.
  intros Hc Hi. cbv zeta.
  destruct (run_spec calls s (initial_registry_ok s Hc Hi))
    as (labels & Hsink & Hlen & (Hcnt & Hrange & Hinj) & _ & Hdom & Hlab & Hfst).
  rewrite Hi, dom_empty_L in *.
  assert (Hfind : forall k c i, filter ok_call calls !! k = Some c ->
            thread_of c = Thread i ->
            exists n, threadIds (snd (run calls s)) !! i = Some n /\
                      labels !! k = Some (LNum n)).
  { intros k c i Hk Ht.
    assert (i ∈ dom (threadIds (snd (run calls s)))) as [n Hn]%elem_of_dom.
    { rewrite Hdom. apply elem_of_union_r. by eapply idents_lookup. }
    exists n. split; [done|]. rewrite (Hlab k c Hk), Ht. simpl. by rewrite Hn. }
  exists labels. split; [done|]. split; [done|].
  split; [|split; [|split; [|split]]]; [| | | |apply pretty_Z_inj].
  - intros k c Hk Ht. by rewrite (Hlab k c Hk), Ht.
  - intros k c i Hk Ht. destruct (Hfind k c i Hk Ht) as (n & Hn & Hl).
    exists n. split; [done|]. specialize (Hrange _ _ Hn). lia.
  - intros j k cj ck i i' n n' Hj Hk Htj Htk Hlj Hlk.
    destruct (Hfind j cj i Hj Htj) as (m & Hm & Hl).
    destruct (Hfind k ck i' Hk Htk) as (m' & Hm' & Hl').
    assert (m = n) as -> by congruence. assert (m' = n') as -> by congruence.
    split.
    + intros <-. by eapply Hinj.
    + intros <-. congruence.
  - intros k c i n Hk Ht Hnew Hl.
    destruct (Hfind k c i Hk Ht) as (m & Hm & Hl').
    assert (m = n) as -> by congruence.
    specialize (Hfst k c i Hk Ht).
    rewrite (left_id_L ∅ (∪)) in Hfst. specialize (Hfst Hnew). congruence.
Qed.

Lemma thread_labels_first_come_witness :
  exists labels : list label,
    sink (snd (run MsgSamples.sample_run (initial_state None)))
      = zip_with emitted_by MsgSamples.sample_run (render <$> labels) /\
    labels !! 1%nat = Some LMain.
Proof.
  destruct (thread_labels_first_come MsgSamples.sample_run (initial_state None)
              eq_refl eq_refl) as (labels & Hs & _ & Hmain & _).
  exists labels. split; [exact Hs|].
  apply (Hmain 1%nat (MsgSamples.call_of MsgSamples.main_env "b" WARNING));
    reflexivity.
Defined.

Example sample_run_messages :
  message <$> sink (snd (run MsgSamples.sample_run (initial_state None))) =
    ["Mon Jan  1 00:00:00 2024 - process - INFO - 1 - a";
     "Mon Jan  1 00:00:02 2024 - setup - WARNING - M - b";
     "Mon Jan  1 00:00:01 2024 - fetch - ERROR - 2 - c";
     "Mon Jan  1 00:00:00 2024 - process - DEBUG - 1 - d"].
Proof. vm_compute. reflexivity. Qed.

(** C1: with level 999 the handler accepts the integer, no [ValueError] is
    raised, and the lookup of the level name raises [KeyError]; nothing is
    written. *)
Theorem logMessage_level_999 (e : env) (args : list value)
    (loggername timestamp : option string) (s : state) :
  let r := logMessage e args (VInt 999) loggername timestamp s in
  fst r = Raise KeyError /\ sink (snd r) = sink s.
Proof. cbv zeta. rewrite logMessage_int. by vm_compute. Qed.

Lemma logMessage_unrecognized_int e args L loggername timestamp s :
  recognized (VInt L) = false ->
  let r := logMessage e args (VInt L) loggername timestamp s in
  fst r = Raise KeyError /\ sink (snd r) = sink s.
Proof.
  intros H. cbv zeta. rewrite logMessage_int. cbv zeta.
  destruct (levels !! L) as [n|] eqn:E; [|done].
  assert (recognized (VInt L) = true) by (apply recognized_int; eauto).
  congruence.
Qed.

(** The [except ValueError] branch is reached by a string that names no
    level; its [logger.log] call has the message where the level belongs and
    raises [TypeError]. *)
Lemma logMessage_unknown_name e args x loggername timestamp s :
  _nameToLevel !! x = None ->
  let r := logMessage e args (VStr x) loggername timestamp s in
  fst r = Raise TypeError /\ sink (snd r) = sink s.
Proof.
  intros H. unfold logMessage, try_except, Handler_setLevel, Logger_setLevel,
    Logger_addHandler, levels_getitem, _checkLevel, Logger_log, bind, ret,
    raise, modify.
  by rewrite H.
Qed.

Lemma logMessage_gui e args level loggername timestamp s :
  gui (snd (logMessage e args level loggername timestamp s)) = gui s.
Proof.
  destruct (recognized level) eqn:E.
  - destruct level as [L|x]; [|by rewrite recognized_str in E].
    by apply logMessage_recognized.
  - by apply logMessage_unrecognized.
Qed.

Lemma notifyMessage_tray_eq e args timeout title level t s :
  trayicon s = Some t ->
  notifyMessage e args timeout title level s =
    match icon_of level with
    | None => (Raise ValueError, s)
    | Some i =>
        logMessage (called_from "notifyMessage" e) (VStr <$> args) (VInt INFO)
          None None
          (set_gui (((gui s ++ [Direct (Method t show)])
                     ++ [InMainThread (Method t (tray_showMessage title
                                                  (String.concat "" args) i timeout))])
                    ++ [InMainThread (SingleShot timeout t hide)]) s)
    end.
Proof.
  intros H. unfold notifyMessage, bind, gets. rewrite H.
  fold (icon_of level). destruct (icon_of level); reflexivity.
Qed.

Lemma notifyMessage_no_tray_eq e args timeout title level s :
  trayicon s = None ->
  notifyMessage e args timeout title level s =
    logMessage (called_from "notifyMessage" e) (VStr <$> args) (VInt INFO)
      None None s.
Proof. intros H. unfold notifyMessage, bind, gets. by rewrite H. Qed.

Lemma icon_of_int L :
  icon_of (VInt L) =
    if decide (L = ERROR \/ L = CRITICAL) then Some Critical
    else if decide (L = WARNING) then Some Warning
    else if decide (L = INFO \/ L = DEBUG) then Some Information
    else None.
Proof.
  unfold icon_of.
  repeat case_bool_decide; repeat case_decide; set_unfold;
    unfold DEBUG, INFO, WARNING, ERROR, CRITICAL in *; naive_solver lia.
Qed.


(** C4: with a tray icon registered, [notifyMessage] shows the tray icon,
    hands exactly one [showMessage] call to the GUI thread, with the
    [Warning] icon for [WARNING], [Information] for [DEBUG] and [INFO] and
    [Critical] for [ERROR] and [CRITICAL], schedules the icon's hiding, and
    returns; for any other integer it raises [ValueError] and does nothing
    else. *)
Theorem notifyMessage_tray (e : env) (args : list string) (timeout : Z)
    (title : string) (L : Z) (t : widget) (s : state) :
  trayicon s = Some t ->
  let r := notifyMessage e args timeout title (VInt L) s in
  let shows (i : icon) :=
    fst r = Return tt /\
    gui (snd r) = (gui s ++ tray_events t title args i timeout)%list in
  (L = WARNING -> shows Warning) /\
  (L = DEBUG \/ L = INFO -> shows Information) /\
  (L = ERROR \/ L = CRITICAL -> shows Critical) /\
  (L ∉ [DEBUG; INFO; WARNING; ERROR; CRITICAL] -> r = (Raise ValueError, s)).
Proof.
  intros H. cbv zeta. rewrite (notifyMessage_tray_eq _ _ _ _ _ t) by done.
  rewrite icon_of_int.
  assert (Hlog : forall i,
    let r := logMessage (called_from "notifyMessage" e) (VStr <$> args)
               (VInt INFO) None None
               (set_gui (((gui s ++ [Direct (Method t show)])
                     ++ [InMainThread (Method t (tray_showMessage title
                                                  (String.concat "" args) i timeout))])
                    ++ [InMainThread (SingleShot timeout t hide)]) s) in
    fst r = Return tt /\
    gui (snd r) = (gui s ++ tray_events t title args i timeout)%list).
  { intros i. cbv zeta. split.
    - by apply logMessage_recognized.
    - rewrite logMessage_gui. simpl. by rewrite <- !app_assoc. }
  split; [|split; [|split]].
  - intros ->. apply Hlog.
  - intros [->| ->]; apply Hlog.
  - intros [->| ->]; apply Hlog.
  - intros Hn. set_unfold.
    repeat case_decide; try done; naive_solver.
Qed.

Lemma notifyMessage_tray_witness :
  let s := initial_state (Some MsgSamples.tray) in
  (let r := notifyMessage MsgSamples.worker_env ["disk"; "full"] 8000 "Xi-cam"
              (VInt WARNING) s in
   fst r = Return tt /\
   gui (snd r) =
     [Direct (Method MsgSamples.tray show);
      InMainThread (Method MsgSamples.tray
                      (tray_showMessage "Xi-cam" "diskfull" Warning 8000));
      InMainThread (SingleShot 8000 MsgSamples.tray hide)]) /\
  notifyMessage MsgSamples.worker_env ["disk"; "full"] 8000 "Xi-cam" (VInt 7) s
    = (Raise ValueError, s).
Proof.
  split.
  - exact (proj1 (notifyMessage_tray MsgSamples.worker_env ["disk"; "full"] 8000
                    "Xi-cam" WARNING MsgSamples.tray
                    (initial_state (Some MsgSamples.tray)) eq_refl) eq_refl).
  - apply (proj2 (proj2 (proj2 (notifyMessage_tray MsgSamples.worker_env
                    ["disk"; "full"] 8000 "Xi-cam" 7 MsgSamples.tray
                    (initial_state (Some MsgSamples.tray)) eq_refl)))).
    intros Hin.
    repeat (apply elem_of_cons in Hin as [Hin|Hin]; [discriminate|]).
    by apply elem_of_nil in Hin.
Defined.

(** C7: [clearMessage] raises [AttributeError] when no status bar is
    registered; with one registered it calls the status bar's
    [clearMessage] once, directly, and returns. *)
Theorem clearMessage_spec (s : state) :
  (statusbar s = None -> clearMessage s = (Raise AttributeError, s)) /\
  (forall w, statusbar s = Some w ->
     clearMessage s =
       (Return tt, set_gui (gui s ++ [Direct (Method w statusbar_clearMessage)]) s)).
Proof.
  unfold clearMessage, bind, gets. split.
  - by intros ->.
  - by intros w ->.
Qed.

Lemma clearMessage_spec_witness :
  clearMessage (initial_state None) = (Raise AttributeError, initial_state None) /\
  gui (snd (clearMessage (set_statusbar (Some MsgSamples.bar) (initial_state None))))
    = [Direct (Method MsgSamples.bar statusbar_clearMessage)].
Proof.
  split.
  - exact (proj1 (clearMessage_spec (initial_state None)) eq_refl).
  - rewrite (proj2 (clearMessage_spec
                      (set_statusbar (Some MsgSamples.bar) (initial_state None)))
               MsgSamples.bar eq_refl).
    reflexivity.
Defined.

Lemma showMessage_eq e args timeout kw w s :
  statusbar s = Some w ->
  showMessage e args timeout kw s =
    logMessage (called_from "showMessage" e) (VStr <$> args)
      (default (VInt INFO) (kw_level kw)) (kw_loggername kw) (kw_timestamp kw)
      (set_gui (gui s ++ [Direct (Method w (statusbar_showMessage
                                             (String.concat " " args)
                                             (timeout * 1000)))]) s).
Proof. intros H. unfold showMessage, bind, gets. by rewrite H. Qed.

(** C8: [hideBusy] calls [hide] and [setRange] on the registered progress
    bar directly, and [showMessage] calls the status bar's [showMessage]
    directly; neither call is handed to the GUI thread. *)
Theorem hideBusy_showMessage_direct (e : env) (args : list string)
    (timeout : Z) (kw : kwargs) (w : widget) (s : state) :
  (let s0 := set_progressbar (Some w) s in
   hideBusy s0 =
     (Return tt,
      set_gui ((gui s0 ++ [Direct (Method w hide)])
                 ++ [Direct (Method w (setRange 0 100))]) s0)) /\
  (let s0 := set_statusbar (Some w) s in
   gui (snd (showMessage e args timeout kw s0)) =
     (gui s0 ++ [Direct (Method w (statusbar_showMessage
                                     (String.concat " " args) (timeout * 1000)))])%list).
Proof.
  split; [reflexivity|]. cbv zeta.
  rewrite (showMessage_eq _ _ _ _ w) by done.
  by rewrite logMessage_gui.
Qed.

(** The sibling [showBusy] hands the same kind of call to the GUI thread. *)
Lemma showBusy_marshalled (w : widget) (s : state) :
  let s0 := set_progressbar (Some w) s in
  showBusy s0 =
    (Return tt,
     set_gui ((gui s0 ++ [InMainThread (Method w show)])
                ++ [InMainThread (Method w (setRange 0 0))]) s0).
Proof. reflexivity. Qed.

(** C9: with no tray icon registered, [notifyMessage] is the plain log call
    of its parts, at [INFO], whatever the level is, and returns without
    raising. *)
Theorem notifyMessage_no_tray (e : env) (args : list string) (timeout : Z)
    (title : string) (level : value) (s : state) :
  trayicon s = None ->
  notifyMessage e args timeout title level s =
    logMessage (called_from "notifyMessage" e) (VStr <$> args) (VInt INFO)
      None None s /\
  fst (notifyMessage e args timeout title level s) = Return tt /\
  gui (snd (notifyMessage e args timeout title level s)) = gui s.
Proof.
  intros H. rewrite notifyMessage_no_tray_eq by done.
  split; [done|]. split.
  - by apply logMessage_recognized.
  - apply logMessage_gui.
Qed.

Lemma notifyMessage_no_tray_witness :
  fst (notifyMessage MsgSamples.worker_env ["x"] 8000 "t" (VInt 999)
         (initial_state None)) = Return tt.
Proof.
  exact (proj1 (proj2 (notifyMessage_no_tray MsgSamples.worker_env ["x"] 8000 "t"
                         (VInt 999) (initial_state None) eq_refl))).
Defined.

Lemma str_VStr (args : list string) : str <$> (VStr <$> args) = args.
Proof. induction args as [|a args IH]; [done|]. by rewrite !fmap_cons, IH. Qed.





End MsgFacts.

(** ** Further properties of [paths.py] and of the log directory *)

Module PathsExtra.
Import Paths PathsSpec PathsMore PathsFacts.

Lemma grows_within_refl p fs : grows_within p fs fs.
Proof. unfold grows_within. repeat split; auto. Qed.

Lemma grows_within_trans p fs1 fs2 fs3 :
  grows_within p fs1 fs2 -> grows_within p fs2 fs3 -> grows_within p fs1 fs3.
Proof.
  intros (Hf & Hr & Hd & Hs) (Hf' & Hr' & Hd' & Hs').
  split; [congruence|]. split; [congruence|]. split; [set_solver|].
  intros q Hq. destruct (Hs' q Hq) as [H|H]; auto.
Qed.

Lemma grows_within_parent c head fs fs' :
  grows_within head fs fs' -> grows_within (c :: head) fs fs'.
Proof.
  intros (Hf & Hr & Hd & Hs). repeat split; auto.
  intros q Hq. destruct (Hs q Hq) as [H|H]; auto.
  right. by apply suffix_cons_r.
Qed.

Lemma mkdir_grows p fs r fs' : mkdir p fs = (r, fs') -> grows_within p fs fs'.
Proof.
  intros H. apply mkdir_inv in H as [(-> & -> & _)|(e & -> & -> & _)].
  - unfold grows_within, add_dir. simpl. repeat split; [set_solver|].
    intros q Hq. apply elem_of_union in Hq as [Hq|Hq]; [|by left].
    right. apply elem_of_singleton in Hq. by subst.
  - apply grows_within_refl.
Qed.

Lemma makedirs_grows p : forall fs r fs',
  makedirs p fs = (r, fs') -> grows_within p fs fs'.
Proof.
  induction p as [|c head IH]; intros fs r fs' H; simpl in H.
  - by eapply mkdir_grows.
  - destruct (exists_ head fs); simpl in H; [by eapply mkdir_grows|].
    unfold bind, try_except in H.
    destruct (makedirs head fs) as [r1 fs1] eqn:E1.
    apply IH in E1. apply (grows_within_parent c) in E1.
    destruct r1 as [[]|e1].
    + eapply grows_within_trans; [done|]. by eapply mkdir_grows.
    + destruct (decide (e1 = FileExistsError)).
      * unfold ret in H. eapply grows_within_trans; [done|]. by eapply mkdir_grows.
      * by simplify_eq.
Qed.

Lemma init_dir_inv p fs r fs' :
  init_dir p fs = (r, fs') ->
  exists r0, makedirs p fs = (r0, fs') /\
    (r = r0 /\ r0 <> Raise FileExistsError \/
     r = Return tt /\ r0 = Raise FileExistsError).
Proof.
  unfold init_dir, try_except. destruct (makedirs p fs) as [r0 fs0].
  destruct r0 as [[]|e].
  - intros [= <- <-]. eexists. split; [done|]. by left.
  - destruct (decide (e = FileExistsError)) as [->|Hne]; unfold ret.
    + intros [= <- <-]. eexists. split; [done|]. by right.
    + intros [= <- <-]. eexists. split; [done|]. left. split; [done|]. congruence.
Qed.

(** X1: whatever [init_dir] does, returning or raising, it never raises
    [FileExistsError], leaves the regular files and the read-only marks as
    they are, removes no directory, and every directory it adds is the path
    itself or one of its ancestors. *)
Theorem init_dir_only_adds_ancestors (p : path) (fs : filesystem) :
  let r := init_dir p fs in
  fst r <> Raise FileExistsError /\
  files (snd r) = files fs /\ readonly (snd r) = readonly fs /\
  dirs fs ⊆ dirs (snd r) /\
  (forall q, q ∈ dirs (snd r) -> q ∈ dirs fs \/ q `suffix_of` p).
Proof.
  cbv zeta. destruct (init_dir p fs) as [r fs'] eqn:E.
  destruct (init_dir_inv _ _ _ _ E) as (r0 & Hm & Hr).
  apply makedirs_grows in Hm. simpl. split; [|exact Hm].
  destruct Hr as [[-> ?]|[-> _]]; done.
Qed.

Lemma exists_parent_wf p fs :
  wf_fs fs = true -> exists_ p fs = true -> isdir (parent p) fs = true.
Proof.
  intros Hwf Hp. apply bool_decide_eq_true in Hwf.
  unfold exists_, isdir in Hp.
  apply orb_true_iff in Hp as [Hp|Hp]; [apply orb_true_iff in Hp as [Hp|Hp]|];
    apply bool_decide_eq_true in Hp.
  - by subst.
  - apply Hwf. set_solver.
  - apply Hwf. set_solver.
Qed.

Lemma wf_add_dir p fs :
  wf_fs fs = true -> isdir (parent p) fs = true -> wf_fs (add_dir p fs) = true.
Proof.
  intros Hwf Hp. apply bool_decide_eq_true in Hwf. apply bool_decide_eq_true.
  intros q Hq. apply isdir_add_dir. simpl in Hq.
  destruct (decide (q = p)) as [->|Hne]; [done|].
  apply Hwf. set_solver.
Qed.

Lemma mkdir_wf p fs r fs' :
  mkdir p fs = (r, fs') -> wf_fs fs = true -> wf_fs fs' = true.
Proof.
  intros H Hwf. apply mkdir_inv in H as [(-> & -> & Hd)|(e & -> & -> & _)]; [|done].
  by apply wf_add_dir.
Qed.

Lemma makedirs_wf p : forall fs r fs',
  makedirs p fs = (r, fs') -> wf_fs fs = true -> wf_fs fs' = true.
Proof.
  induction p as [|c head IH]; intros fs r fs' H Hwf; simpl in H.
  - by eapply mkdir_wf.
  - destruct (exists_ head fs); simpl in H; [by eapply mkdir_wf|].
    unfold bind, try_except in H.
    destruct (makedirs head fs) as [r1 fs1] eqn:E1.
    apply IH in E1; [|done].
    destruct r1 as [[]|e1].
    + by eapply mkdir_wf.
    + destruct (decide (e1 = FileExistsError)).
      * unfold ret in H. by eapply mkdir_wf.
      * by simplify_eq.
Qed.

Lemma ancestors_exist fs : wf_fs fs = true ->
  forall p q, exists_ p fs = true -> q `suffix_of` p -> exists_ q fs = true.
Proof.
  intros Hwf p q Hp [k ->]. induction k as [|a k IH]; [done|].
  apply IH. apply isdir_exists.
  by apply (exists_parent_wf (a :: k ++ q)).
Qed.

(** X2: on a file system where every entry lies in a directory, [init_dir]
    keeps that so, also when it raises; and when it returns, the path and
    every ancestor of it exist. *)
Theorem init_dir_keeps_tree (p : path) (fs : filesystem) :
  wf_fs fs = true ->
  wf_fs (snd (init_dir p fs)) = true /\
  (fst (init_dir p fs) = Return tt ->
   forall q, q `suffix_of` p -> exists_ q (snd (init_dir p fs)) = true).
Proof.
  intros Hwf. destruct (init_dir p fs) as [r fs'] eqn:E. simpl.
  destruct (init_dir_inv _ _ _ _ E) as (r0 & Hm & Hr).
  pose proof (makedirs_wf _ _ _ _ Hm Hwf) as Hwf'.
  split; [done|]. intros -> q Hq.
  apply (ancestors_exist fs' Hwf' p); [|done].
  eapply makedirs_post; [exact Hm|].
  destruct Hr as [[<- _]|[_ ->]]; auto.
Qed.

Lemma init_dir_keeps_tree_witness :
  exists_ (of_components ["home"; "u"; ".cache"])
    (snd (init_dir Samples.cache_xicam Samples.fs_home)) = true.
Proof.
  apply (proj2 (init_dir_keeps_tree Samples.cache_xicam Samples.fs_home eq_refl)).
  - reflexivity.
  - by exists ["xicam"].
Defined.

Lemma not_suffix_longer (c : string) (head : path) : ~ (c :: head) `suffix_of` head.
Proof. intros H%suffix_length. simpl in H. lia. Qed.

Lemma makedirs_can_make p : forall fs,
  can_make p fs = true ->
  exists fs', makedirs p fs = (Return tt, fs') /\ isdir p fs' = true.
Proof.
  assert (Hleaf : forall c head fs,
    exists_ (c :: head) fs = false -> isdir head fs = true ->
    head ∉ readonly fs ->
    mkdir (c :: head) fs = (Return tt, add_dir (c :: head) fs)).
  { intros c head fs Hp Hd Hro. unfold mkdir. rewrite Hp. simpl.
    rewrite (isdir_exists _ _ Hd), Hd. simpl.
    by rewrite bool_decide_eq_false_2. }
  assert (Hdir : forall q fs, isdir q (add_dir q fs) = true).
  { intros q fs. unfold isdir, add_dir. simpl. apply orb_true_iff. right.
    apply bool_decide_eq_true. set_solver. }
  induction p as [|c head IH]; intros fs H; [done|].
  simpl in H. apply andb_true_iff in H as [H Hor].
  apply andb_true_iff in H as [Hp Hro].
  apply negb_true_iff in Hp. apply negb_true_iff, bool_decide_eq_false in Hro.
  simpl. destruct (exists_ head fs) eqn:Eh; simpl.
  - assert (isdir head fs = true) as Hd.
    { apply orb_true_iff in Hor as [?|Hc]; [done|].
      destruct head as [|d head']; [done|]. simpl in Hc.
      rewrite Eh in Hc. done. }
    eexists. split; [by apply Hleaf|]. apply Hdir.
  - assert (can_make head fs = true) as Hc.
    { apply orb_true_iff in Hor as [Hd|?]; [|done].
      apply isdir_exists in Hd. congruence. }
    destruct (IH fs Hc) as (fs1 & Hm & Hd1).
    unfold bind, try_except. rewrite Hm.
    pose proof (makedirs_grows _ _ _ _ Hm) as (Hf & Hr & _ & Hs).
    assert (exists_ (c :: head) fs1 = false) as Hp1.
    { apply not_true_is_false. intros Hex. apply not_true_iff_false in Hp.
      apply Hp. unfold exists_, isdir in *. rewrite Hf in Hex.
      apply orb_true_iff in Hex as [Hex|Hex]; [|by rewrite Hex, orb_true_r].
      apply orb_true_iff in Hex as [Hex|Hex]; [done|].
      apply bool_decide_eq_true in Hex.
      destruct (Hs _ Hex) as [Hin|Hsuf]; [|by apply not_suffix_longer in Hsuf].
      by rewrite (bool_decide_eq_true_2 _ Hin). }
    eexists. split; [apply Hleaf; [done|done|by rewrite Hr]|]. apply Hdir.
Qed.

(** X3: when the path is absent and can be created (its missing ancestors
    hang under an existing directory and no directory on the way is
    read-only), [init_dir] returns and the path is a directory afterwards. *)
Theorem init_dir_creates (p : path) (fs : filesystem) :
  can_make p fs = true ->
  fst (init_dir p fs) = Return tt /\ isdir p (snd (init_dir p fs)) = true.
Proof.
  intros H. destruct (makedirs_can_make p fs H) as (fs' & Hm & Hd).
  unfold init_dir, try_except. by rewrite Hm.
Qed.

Lemma init_dir_creates_witness :
  fst (init_dir Samples.cache_xicam Samples.fs_home) = Return tt /\
  isdir Samples.cache_xicam (snd (init_dir Samples.cache_xicam Samples.fs_home)) = true.
Proof. exact (init_dir_creates Samples.cache_xicam Samples.fs_home eq_refl). Defined.


Lemma makedirs_ok_false p : forall fs, makedirs_ok false p fs = makedirs p fs.
Proof.
  assert (Hleaf : forall q fs, mkdir_leaf false q fs = mkdir q fs).
  { intros q fs. unfold mkdir_leaf. by destruct (mkdir q fs) as [[[]|e] fs']. }
  induction p as [|c head IH]; intros fs; simpl; [apply Hleaf|].
  destruct (exists_ head fs); simpl; [apply Hleaf|].
  unfold bind, try_except. rewrite IH.
  destruct (makedirs head fs) as [[[]|e] fs1]; [apply Hleaf| ].
  destruct (decide (e = FileExistsError)); [|done]. unfold ret. apply Hleaf.
Qed.

Lemma init_dir_not_FileExistsError p fs :
  fst (init_dir p fs) <> Raise FileExistsError.
Proof.
  destruct (init_dir p fs) as [r fs'] eqn:E.
  destruct (init_dir_inv _ _ _ _ E) as (r0 & _ & [[-> ?]|[-> _]]); done.
Qed.

Lemma init_dir_cons c head fs :
  init_dir (c :: head) fs =
    if exists_ head fs
    then try_except (mkdir (c :: head)) FileExistsError (ret tt) fs
    else (let (r1, fs1) := init_dir head fs in
          match r1 with
          | Return _ => try_except (mkdir (c :: head)) FileExistsError (ret tt) fs1
          | Raise e => (Raise e, fs1)
          end).
Proof.
  unfold init_dir at 1. unfold try_except at 1. simpl.
  destruct (exists_ head fs); simpl; [done|].
  unfold bind. 
  pose proof (init_dir_not_FileExistsError head fs) as Hne.
  unfold init_dir in *. 
  destruct (try_except (makedirs head) FileExistsError (ret tt) fs) as [r1 fs1] eqn:E.
  simpl in Hne.
  destruct r1 as [[]|e]; [done|].
  destruct (decide (e = FileExistsError)); [congruence|done].
Qed.

Lemma mkdir_raise_iff p fs e fs' :
  mkdir p fs = (Raise e, fs') ->
  fs' = fs /\ (e = FileExistsError <-> exists_ p fs = true).
Proof.
  unfold mkdir. destruct (exists_ p fs).
  { intros [= <- <-]. done. }
  destruct (negb (exists_ (parent p) fs)); [intros [= <- <-]; by split|].
  destruct (negb (isdir (parent p) fs)); [intros [= <- <-]; by split|].
  destruct (bool_decide (parent p ∈ readonly fs)); [intros [= <- <-]; by split|].
  done.
Qed.

(** With [exist_ok] set, the last step is [mkdir] with [FileExistsError]
    swallowed, as long as the name is no regular file. *)
Lemma mkdir_leaf_true p fs :
  p ∉ files fs ->
  mkdir_leaf true p fs = try_except (mkdir p) FileExistsError (ret tt) fs.
Proof.
  intros Hf. unfold mkdir_leaf, try_except.
  destruct (mkdir p fs) as [[[]|e] fs'] eqn:E; [done|].
  apply mkdir_raise_iff in E as [-> He]. simpl.
  assert (exists_ p fs = isdir p fs) as Hex.
  { unfold exists_. by rewrite (bool_decide_eq_false_2 _ Hf), orb_false_r. }
  rewrite Hex in He.
  destruct (decide (e = FileExistsError)) as [->|Hne].
  - by rewrite (proj1 He eq_refl).
  - destruct (isdir p fs); [|done]. destruct Hne. by apply He.
Qed.

Lemma init_dir_files p fs : files (snd (init_dir p fs)) = files fs.
Proof.
  destruct (init_dir p fs) as [r fs'] eqn:E.
  destruct (init_dir_inv _ _ _ _ E) as (r0 & Hm & _).
  by apply makedirs_grows in Hm as (? & _).
Qed.

Lemma makedirs_ok_true p : forall fs,
  p ∉ files fs -> makedirs_ok true p fs = init_dir p fs.
Proof.
  induction p as [|c head IH]; intros fs Hf.
  - simpl. by rewrite mkdir_leaf_true.
  - rewrite init_dir_cons. simpl.
    destruct (exists_ head fs) eqn:Eh; simpl; [by apply mkdir_leaf_true|].
    assert (head ∉ files fs) as Hhf.
    { intros Hin. apply not_true_iff_false in Eh. apply Eh.
      unfold exists_. by rewrite (bool_decide_eq_true_2 _ Hin), orb_true_r. }
    unfold bind. unfold try_except at 1. rewrite (IH fs Hhf).
    pose proof (init_dir_not_FileExistsError head fs) as Hne.
    pose proof (init_dir_files head fs) as Hfiles.
    destruct (init_dir head fs) as [[[]|e] fs1]; simpl in *.
    + apply mkdir_leaf_true. by rewrite Hfiles.
    + destruct (decide (e = FileExistsError)); [congruence|done].
Qed.

(** X4: [os.makedirs(p, exist_ok=True)], as the message module creates its
    log directory, does exactly what [init_dir p] does unless [p] is a
    regular file; on a regular file that is no directory [init_dir] returns
    without a word and changes nothing, while the [exist_ok] call raises
    [FileExistsError]. *)
Theorem makedirs_exist_ok_vs_init_dir (p : path) (fs : filesystem) :
  (p ∉ files fs -> makedirs_ok true p fs = init_dir p fs) /\
  (p ∈ files fs -> isdir p fs = false -> exists_ (parent p) fs = true ->
   init_dir p fs = (Return tt, fs) /\
   makedirs_ok true p fs = (Raise FileExistsError, fs)).
Proof.
  split; [apply makedirs_ok_true|].
  intros Hf Hd Hh.
  assert (exists_ p fs = true) as Hp.
  { unfold exists_. by rewrite (bool_decide_eq_true_2 _ Hf), orb_true_r. }
  split; [by apply init_dir_existing|].
  assert (mkdir_leaf true p fs = (Raise FileExistsError, fs)) as Hleaf.
  { unfold mkdir_leaf. rewrite (mkdir_exists _ _ Hp). by rewrite Hd. }
  destruct p as [|c head]; [done|]. simpl in *. by rewrite Hh.
Qed.

Lemma makedirs_exist_ok_vs_init_dir_witness :
  makedirs_ok true Samples.cache_xicam Samples.fs_home
    = init_dir Samples.cache_xicam Samples.fs_home /\
  init_dir Samples.cache_xicam fs_with_file = (Return tt, fs_with_file) /\
  makedirs_ok true Samples.cache_xicam fs_with_file
    = (Raise FileExistsError, fs_with_file).
Proof.
  split.
  - apply (proj1 (makedirs_exist_ok_vs_init_dir Samples.cache_xicam Samples.fs_home)).
    apply not_elem_of_empty.
  - apply (proj2 (makedirs_exist_ok_vs_init_dir Samples.cache_xicam fs_with_file)).
    + vm_compute. reflexivity.
    + reflexivity.
    + reflexivity.
Defined.

Lemma isdir_add_dir_same q fs : isdir q (add_dir q fs) = true.
Proof.
  unfold isdir, add_dir. simpl. apply orb_true_iff. right.
  apply bool_decide_eq_true. set_solver.
Qed.

Lemma mkdir_under_dir c head fs :
  isdir head fs = true -> head ∉ readonly fs ->
  mkdir (c :: head) fs =
    if exists_ (c :: head) fs then (Raise FileExistsError, fs)
    else (Return tt, add_dir (c :: head) fs).
Proof.
  intros Hd Hro. unfold mkdir. destruct (exists_ (c :: head) fs); [done|].
  simpl. rewrite (isdir_exists _ _ Hd), Hd. simpl.
  by rewrite (bool_decide_eq_false_2 _ Hro).
Qed.

(** X5: once [init_dir] has returned for the cache directory, and that
    path is neither a regular file nor read-only and nothing but a directory
    stands where the log directory goes, the message module's creation of
    the [logs] directory under it returns and the directory is there. *)
Theorem logs_dir_after_init_dir (cache : path) (fs : filesystem) :
  fst (init_dir cache fs) = Return tt ->
  cache ∉ files fs -> cache ∉ readonly fs -> join cache "logs" ∉ files fs ->
  let fs1 := snd (init_dir cache fs) in
  fst (make_logs_dir cache fs1) = Return tt /\
  isdir (join cache "logs") (snd (make_logs_dir cache fs1)) = true.
Proof.
  intros Hr Hcf Hro Hlf. cbv zeta.
  destruct (init_dir cache fs) as [r fs1] eqn:E. simpl in *. subst r.
  destruct (init_dir_inv _ _ _ _ E) as (r0 & Hm & Hr0).
  pose proof (makedirs_grows _ _ _ _ Hm) as (Hf & Hr & _ & _).
  assert (exists_ cache fs1 = true) as Hex.
  { eapply makedirs_post; [exact Hm|]. destruct Hr0 as [[<- _]|[_ ->]]; auto. }
  assert (isdir cache fs1 = true) as Hd.
  { unfold exists_ in Hex. rewrite Hf in Hex.
    by rewrite (bool_decide_eq_false_2 _ Hcf), orb_false_r in Hex. }
  unfold make_logs_dir. rewrite makedirs_ok_true by (by rewrite Hf).
  unfold join. rewrite init_dir_cons, Hex.
  unfold try_except. rewrite mkdir_under_dir by (by rewrite ?Hr).
  destruct (exists_ ("logs" :: cache) fs1) eqn:El; simpl.
  - split; [done|]. unfold exists_ in El. rewrite Hf in El.
    by rewrite (bool_decide_eq_false_2 _ Hlf), orb_false_r in El.
  - split; [done|]. apply isdir_add_dir_same.
Qed.

Lemma logs_dir_after_init_dir_witness :
  let fs1 := snd (init_dir Samples.cache_xicam Samples.fs_home) in
  fst (make_logs_dir Samples.cache_xicam fs1) = Return tt /\
  isdir (join Samples.cache_xicam "logs")
    (snd (make_logs_dir Samples.cache_xicam fs1)) = true.
Proof.
  apply (logs_dir_after_init_dir Samples.cache_xicam Samples.fs_home eq_refl);
    apply not_elem_of_empty.
Defined.
End PathsExtra.

(** ** Further properties of the message facility *)

Module MsgExtra.
Import Msg MsgSpec MsgMore MsgFacts.

(** The whole effect of [logMessage], by the kind of level it is given. *)
Lemma logMessage_cases e args level loggername timestamp s :
  logMessage e args level loggername timestamp s =
    let logger := resolve_name e loggername in
    match level with
    | VInt L =>
        if recognized (VInt L)
        then (Return tt,
              set_sink (sink s ++ [emitted e args L loggername timestamp
                                     (render (peek_label s (current_thread e)))])
                (observe (current_thread e) (prepared logger L s)))
        else (Raise KeyError, prepared logger L s)
    | VStr x =>
        match _nameToLevel !! x with
        | Some z => (Raise KeyError, prepared logger z s)
        | None => (Raise TypeError,
                   set_logger_level (<[logger := DEBUG]> (logger_level s)) s)
        end
    end.
Proof.
  cbv zeta. destruct level as [L|x].
  - rewrite logMessage_int. cbv zeta.
    destruct (recognized (VInt L)) eqn:Hrec.
    + pose proof (recognized_threshold _ Hrec) as Hth.
      apply recognized_int in Hrec as [n Hn]. rewrite Hn.
      set (logger := resolve_name e loggername).
      set (s1 := prepared logger L s).
      destruct (observe_frame (current_thread e) s1) as (Hs & _ & Hl & _).
      unfold Logger_log. rewrite Hl.
      replace (logger_level s1 !! logger) with (Some DEBUG)
        by (symmetry; apply lookup_insert_eq).
      simpl default. rewrite bool_decide_eq_true_2 by done.
      rewrite Hs. unfold emitted. rewrite Hn. reflexivity.
    + destruct (levels !! L) as [n|] eqn:E; [|done].
      assert (recognized (VInt L) = true) by (apply recognized_int; eauto).
      congruence.
  - unfold logMessage, try_except, Handler_setLevel, Logger_setLevel,
      Logger_addHandler, levels_getitem, _checkLevel, Logger_log, bind, ret,
      raise, modify.
    destruct (_nameToLevel !! x); done.
Qed.


Lemma observe_frame_handlers t s :
  stdch_level (observe t s) = stdch_level s /\
  stdch_loggers (observe t s) = stdch_loggers s.
Proof.
  destruct t as [|i]; simpl; [done|].
  by destruct (threadIds s !! i).
Qed.

(** X6: [logMessage] returns exactly when the level is one of the five
    recognized integers.  Otherwise nothing reaches the sink and it raises
    [KeyError] for any other integer and for a string that names a logging
    level, and [TypeError] for any other string. *)
Theorem logMessage_outcome (e : env) (args : list value) (level : value)
    (loggername timestamp : option string) (s : state) :
  let r := logMessage e args level loggername timestamp s in
  (fst r = Return tt <-> recognized level = true) /\
  (recognized level = false ->
   sink (snd r) = sink s /\
   fst r = Raise match level with
                 | VInt _ => KeyError
                 | VStr x => if decide (is_Some (_nameToLevel !! x))
                             then KeyError else TypeError
                 end).
Proof.
  cbv zeta. rewrite logMessage_cases. cbv zeta.
  destruct level as [L|x].
  - destruct (recognized (VInt L)); simpl; repeat split; done.
  - rewrite recognized_str.
    destruct (_nameToLevel !! x) as [z|] eqn:E; simpl;
      (split; [by split|]); intros _; by split.
Qed.

(** X7: every [logMessage] call, also one that raises, leaves the threshold
    of its logger at [DEBUG] and the thresholds of all other loggers alone;
    with an integer level, recognized or not, it leaves the shared stream
    handler's threshold at that level and the handler attached to the
    logger. *)
Theorem logMessage_leaves_thresholds (e : env) (args : list value)
    (level : value) (loggername timestamp : option string) (s : state) :
  let r := logMessage e args level loggername timestamp s in
  let logger := resolve_name e loggername in
  logger_level (snd r) = <[logger := DEBUG]> (logger_level s) /\
  (forall L, level = VInt L ->
     stdch_level (snd r) = L /\
     stdch_loggers (snd r) = {[logger]} ∪ stdch_loggers s).
Proof.
  cbv zeta. rewrite logMessage_cases. cbv zeta.
  set (logger := resolve_name e loggername).
  destruct level as [L|x].
  - destruct (observe_frame (current_thread e) (prepared logger L s))
      as (_ & _ & Hl & _).
    destruct (observe_frame_handlers (current_thread e) (prepared logger L s))
      as (Hh & Hhs).
    destruct (recognized (VInt L)); simpl.
    + rewrite Hl. split; [done|]. intros ? [= <-]. by rewrite Hh, Hhs.
    + split; [done|]. by intros ? [= <-].
  - destruct (_nameToLevel !! x); simpl; by split.
Qed.

Lemma set_gui_same s : set_gui (gui s) s = s.
Proof. by destruct s. Qed.

Lemma logMessage_set_gui e args level loggername timestamp l s :
  logMessage e args level loggername timestamp (set_gui l s) =
    (fst (logMessage e args level loggername timestamp s),
     set_gui l (snd (logMessage e args level loggername timestamp s))).
Proof.
  rewrite !logMessage_cases. cbv zeta.
  destruct level as [L|x].
  - destruct (recognized (VInt L)); [|done]. simpl. f_equal.
    destruct (current_thread e) as [|i]; simpl; [done|].
    unfold next_label. simpl. by destruct (threadIds s !! i).
  - by destruct (_nameToLevel !! x).
Qed.

Lemma showMessage_cases (e : env) (args : list string)
    (timeout : Z) (kw : kwargs) (s : state) :
  let r0 := logMessage (called_from "showMessage" e) (VStr <$> args)
              (default (VInt INFO) (kw_level kw)) (kw_loggername kw)
              (kw_timestamp kw) s in
  showMessage e args timeout kw s =
    (fst r0, set_gui (gui s ++ status_events (statusbar s) args timeout) (snd r0)).
Proof.
  cbv zeta. destruct (statusbar s) as [w|] eqn:E.
  - rewrite (showMessage_eq _ _ _ _ w) by done. apply logMessage_set_gui.
  - unfold showMessage, bind, gets. rewrite E. unfold ret. simpl.
    rewrite app_nil_r, <- (logMessage_gui (called_from "showMessage" e)
      (VStr <$> args) (default (VInt INFO) (kw_level kw)) (kw_loggername kw)
      (kw_timestamp kw) s).
    rewrite set_gui_same. by destruct (logMessage _ _ _ _ _ s).
Qed.

Lemma notifyMessage_cases e args timeout title level s :
  let r0 := logMessage (called_from "notifyMessage" e) (VStr <$> args)
              (VInt INFO) None None s in
  notifyMessage e args timeout title level s =
    match trayicon s with
    | Some t =>
        match icon_of level with
        | Some i => (fst r0, set_gui (gui s ++ tray_events t title args i timeout)
                               (snd r0))
        | None => (Raise ValueError, s)
        end
    | None => r0
    end.
Proof.
  cbv zeta. destruct (trayicon s) as [t|] eqn:E.
  - rewrite (notifyMessage_tray_eq _ _ _ _ _ t) by done.
    destruct (icon_of level); [|done].
    rewrite logMessage_set_gui. unfold tray_events.
    by rewrite <- !app_assoc.
  - by apply notifyMessage_no_tray_eq.
Qed.


Lemma logMessage_step e args level loggername timestamp s :
  let s' := snd (logMessage e args level loggername timestamp s) in
  step_ok (current_thread e) s s' /\ gui s' = gui s.
Proof.
  cbv zeta. unfold step_ok.
  destruct (recognized level) eqn:Hrec.
  - destruct level as [L|x]; [|by rewrite recognized_str in Hrec].
    destruct (logMessage_recognized e args L loggername timestamp s Hrec)
      as (_ & Hs & Hg & Hi & Hc & Hsb & Hpb & Htr).
    rewrite Hg. repeat split; try done. right. eauto.
  - destruct (logMessage_unrecognized e args level loggername timestamp s Hrec)
      as (_ & Hs & Hg & Hi & Hc & Hsb & Hpb & Htr).
    rewrite Hg. repeat split; try done. by left.
Qed.

Lemma step_ok_set_gui t s s' evts :
  step_ok t s s' -> gui s' = gui s -> step_ok t s (set_gui (gui s ++ evts) s').
Proof.
  intros (Hsb & Hpb & Htr & _ & Hr) Hg. unfold step_ok. simpl.
  repeat split; try done. by apply prefix_app_r.
Qed.

Lemma step_ok_gui_only t s evts : step_ok t s (set_gui (gui s ++ evts) s).
Proof.
  unfold step_ok. simpl. repeat split; try done; [by apply prefix_app_r|by left].
Qed.

Lemma step_ok_refl t s : step_ok t s s.
Proof. unfold step_ok. repeat split; try done. by left. Qed.

Lemma set_gui_twice l l' s : set_gui l (set_gui l' s) = set_gui l s.
Proof. reflexivity. Qed.

(** The events the progress operations add. *)
Lemma progress_ops_events v lo hi s :
  showProgress v lo hi s =
    (Return tt,
     set_gui (gui s ++ match progressbar s with
                       | Some w => [InMainThread (Method w show);
                                    InMainThread (Method w (setRange lo hi));
                                    InMainThread (Method w (setValue v))]
                       | None => []
                       end) s) /\
  showBusy s =
    (Return tt,
     set_gui (gui s ++ match progressbar s with
                       | Some w => [InMainThread (Method w show);
                                    InMainThread (Method w (setRange 0 0))]
                       | None => []
                       end) s) /\
  hideBusy s =
    (Return tt,
     set_gui (gui s ++ match progressbar s with
                       | Some w => [Direct (Method w hide);
                                    Direct (Method w (setRange 0 100))]
                       | None => []
                       end) s).
Proof.
  unfold showProgress, showBusy, hideBusy, bind, gets, ret,
    invoke_in_main_thread, direct, modify.
  destruct (progressbar s) as [w|]; cbv beta iota.
  - rewrite !set_gui_twice. cbn [gui set_gui]. by rewrite <- !app_assoc.
  - by rewrite app_nil_r, set_gui_same.
Qed.

Lemma clearMessage_events s :
  snd (clearMessage s) =
    set_gui (gui s ++ match statusbar s with
                      | Some w => [Direct (Method w statusbar_clearMessage)]
                      | None => []
                      end) s.
Proof.
  unfold clearMessage, bind, gets, direct, modify, raise.
  destruct (statusbar s); simpl; [done|]. by rewrite app_nil_r, set_gui_same.
Qed.

(** What one operation does: a step in the sense of [step_ok], silent
    unless the operation is one that logs, whose new GUI events are all of
    the kinds listed in [direct_kind]. *)
Lemma exec_step e o s :
  let s' := snd (exec e o s) in
  step_ok (current_thread e) s s' /\
  (logs o = false -> sink s' = sink s /\ threadIds s' = threadIds s /\
                     _thread_count s' = _thread_count s) /\
  exists evts, gui s' = (gui s ++ evts)%list /\ forallb direct_kind evts = true.
Proof.
  cbv zeta. destruct o as [args level ln ts|args timeout kw|args timeout title level
                          |v lo hi| | | ]; simpl exec.
  - destruct (logMessage_step e args level ln ts s) as [Hstep Hg].
    split; [done|]. split; [done|]. exists []. by rewrite app_nil_r.
  - rewrite showMessage_cases. cbv zeta. simpl snd.
    destruct (logMessage_step (called_from "showMessage" e) (VStr <$> args)
                (default (VInt INFO) (kw_level kw)) (kw_loggername kw)
                (kw_timestamp kw) s) as [Hstep Hg].
    split; [by apply step_ok_set_gui|]. split; [done|].
    eexists. split; [reflexivity|]. by destruct (statusbar s).
  - rewrite notifyMessage_cases. cbv zeta.
    destruct (logMessage_step (called_from "notifyMessage" e) (VStr <$> args)
                (VInt INFO) None None s) as [Hstep Hg].
    destruct (trayicon s) as [t|]; [destruct (icon_of level) as [i|]|]; simpl snd.
    + split; [by apply step_ok_set_gui|]. split; [done|].
      eexists. split; [reflexivity|done].
    + split; [apply step_ok_refl|]. split; [done|].
      exists []. by rewrite app_nil_r.
    + split; [done|]. split; [done|]. exists []. by rewrite app_nil_r.
  - rewrite (proj1 (progress_ops_events v lo hi s)). simpl snd.
    split; [apply step_ok_gui_only|]. split; [done|].
    eexists. split; [reflexivity|]. by destruct (progressbar s).
  - rewrite (proj1 (proj2 (progress_ops_events 0 0 0 s))). simpl snd.
    split; [apply step_ok_gui_only|]. split; [done|].
    eexists. split; [reflexivity|]. by destruct (progressbar s).
  - rewrite (proj2 (proj2 (progress_ops_events 0 0 0 s))). simpl snd.
    split; [apply step_ok_gui_only|]. split; [done|].
    eexists. split; [reflexivity|]. by destruct (progressbar s).
  - rewrite clearMessage_events.
    split; [apply step_ok_gui_only|]. split; [done|].
    eexists. split; [reflexivity|]. by destruct (statusbar s).
Qed.

(** X9: no sequence of operations of the facility changes the status-bar,
    progress-bar or tray-icon slot; the sink only grows at its end, by at
    most one record for each [logMessage], [showMessage] or [notifyMessage]
    in the sequence and by none for the others. *)
Theorem exec_all_keeps_slots (ops : list (env * op)) (s : state) :
  let s' := exec_all ops s in
  statusbar s' = statusbar s /\ progressbar s' = progressbar s /\
  trayicon s' = trayicon s /\
  sink s `prefix_of` sink s' /\
  (length (sink s') <= length (sink s)
                       + length (filter (fun eo => logs (snd eo) = true) ops))%nat.
Proof.
  cbv zeta. revert s. induction ops as [|[e o] ops IH]; intros s; simpl.
  { repeat split; try done. lia. }
  destruct (exec_step e o s) as ((Hsb & Hpb & Htr & _ & Hr) & Hsilent & _).
  destruct (IH (snd (exec e o s))) as (Hsb' & Hpb' & Htr' & Hpre & Hlen).
  split; [congruence|]. split; [congruence|]. split; [congruence|].
  destruct (logs o) eqn:Hl.
  - rewrite filter_cons_True by done. simpl.
    destruct Hr as [(Hs & _)|(r & Hs & _)]; rewrite Hs in *.
    + split; [done|]. lia.
    + split; [by eapply prefix_app_l|]. rewrite length_app in Hlen. simpl in Hlen. lia.
  - rewrite filter_cons_False by (simpl; congruence).
    destruct (Hsilent eq_refl) as (Hs & _). rewrite Hs in *. done.
Qed.

(** X10: in any sequence of operations the GUI trace only grows at its
    end, and every call made on the calling thread is one of: hiding the
    progress bar, resetting its range to (0, 100), showing or clearing the
    status-bar message, showing a widget.  Setting a value or another
    range, the tray notification and the hide timer always go through the
    GUI thread. *)
Theorem exec_all_direct_calls (ops : list (env * op)) (s : state) :
  exists evts, gui (exec_all ops s) = (gui s ++ evts)%list /\
               forallb direct_kind evts = true.
Proof.
  revert s. induction ops as [|[e o] ops IH]; intros s; simpl.
  { exists []. by rewrite app_nil_r. }
  destruct (exec_step e o s) as (_ & _ & evts & Hg & Hk).
  destruct (IH (snd (exec e o s))) as (evts' & Hg' & Hk').
  exists (evts ++ evts')%list. rewrite Hg', Hg, <- app_assoc. split; [done|].
  rewrite forallb_app. by rewrite Hk, Hk'.
Qed.

Lemma observe_count t s : _thread_count s <= _thread_count (observe t s).
Proof.
  destruct t as [|i]; simpl; [done|].
  destruct (threadIds s !! i); simpl; lia.
Qed.

Lemma observe_main t s : ident_of t = ∅ -> observe t s = s.
Proof. destruct t as [|i]; [done|]. simpl. set_solver. Qed.

(** X11: over any sequence of operations the thread registry stays a
    numbering 1, 2, ... without repetition, no label once given changes, the
    counter never goes down, and only identities of calling worker threads
    are entered; a sequence called from the main thread only leaves the
    registry as it was. *)
Theorem exec_all_registry (ops : list (env * op)) (s : state) :
  registry_ok s ->
  let s' := exec_all ops s in
  registry_ok s' /\
  (forall i n, threadIds s !! i = Some n -> threadIds s' !! i = Some n) /\
  dom (threadIds s') ⊆ dom (threadIds s) ∪ op_idents ops /\
  _thread_count s <= _thread_count s' /\
  (op_idents ops = ∅ ->
   threadIds s' = threadIds s /\ _thread_count s' = _thread_count s).
Proof.
  cbv zeta. revert s. induction ops as [|[e o] ops IH]; intros s Hok; simpl.
  { split; [done|]. split; [done|]. split; [set_solver|]. split; [lia|done]. }
  destruct (exec_step e o s) as ((_ & _ & _ & _ & Hr) & _ & _).
  set (s1 := snd (exec e o s)) in *.
  assert (threadIds s1 = threadIds s /\ _thread_count s1 = _thread_count s \/
          threadIds s1 = threadIds (observe (current_thread e) s) /\
          _thread_count s1 = _thread_count (observe (current_thread e) s))
    as Hreg.
  { destruct Hr as [(_ & ? & ?)|(r & _ & ? & ?)]; auto. }
  clear Hr.
  assert (registry_ok s1) as Hok1.
  { destruct Hreg as [[Hi Hc]|[Hi Hc]]; unfold registry_ok; rewrite Hi, Hc;
      [exact Hok|by apply observe_registry_ok]. }
  destruct (IH s1 Hok1) as (Hokf & Hmono & Hdom & Hcnt & Hmain).
  split; [done|]. split; [|split; [|split]].
  - intros i n Hin. apply Hmono.
    destruct Hreg as [[Hi _]|[Hi _]]; rewrite Hi; [done|by apply observe_mono].
  - destruct Hreg as [[Hi _]|[Hi _]]; rewrite Hi in Hdom; [set_solver|].
    rewrite observe_dom in Hdom. set_solver.
  - destruct Hreg as [[_ Hc]|[_ Hc]]; rewrite Hc in Hcnt; [done|].
    pose proof (observe_count (current_thread e) s). lia.
  - intros Hempty.
    assert (ident_of (current_thread e) = ∅ /\ op_idents ops = ∅) as [He Ho]
      by set_solver.
    destruct (Hmain Ho) as [Hi Hc]. rewrite Hi, Hc.
    destruct Hreg as [?|[Hi' Hc']]; [done|].
    by rewrite Hi', Hc', (observe_main _ _ He).
Qed.


Lemma exec_all_registry_witness :
  registry_ok (exec_all MoreSamples.sample_ops MoreSamples.full_state).
Proof.
  exact (proj1 (exec_all_registry MoreSamples.sample_ops MoreSamples.full_state
                  (initial_registry_ok MoreSamples.full_state eq_refl eq_refl))).
Defined.

Lemma recognized_ERROR : recognized (VInt ERROR) = true.
Proof. reflexivity. Qed.

Lemma levels_ERROR : levels !! ERROR = Some "ERROR".
Proof. reflexivity. Qed.

Lemma peek_label_after t s s1 :
  threadIds s1 = threadIds (observe t s) -> peek_label s1 t = peek_label s t.
Proof.
  intros Hi. rewrite <- (observe_label t s), <- Hi.
  destruct t as [|i]; simpl; [done|]. unfold next_label.
  assert (is_Some (threadIds s1 !! i)) as [n Hn].
  { rewrite Hi. simpl. destruct (threadIds s !! i) eqn:E; simpl.
    - rewrite E. by eexists.
    - rewrite lookup_insert_eq. by eexists. }
  by rewrite Hn.
Qed.

(** One of the log calls of [logError]. *)
Lemma error_log_step h loggername timestamp parts s :
  let here := inside_logError h in
  let r := logMessage here (VStr <$> parts) (VInt ERROR) loggername timestamp s in
  fst r = Return tt /\
  sink (snd r) =
    (sink s ++ [{| levelno := ERROR;
                   name := resolve_name here loggername;
                   message := format_line (default (h_asctime h) timestamp)
                                (resolve_name here loggername) "ERROR"
                                (render (peek_label s (h_thread h)))
                                (String.concat " " parts) |}])%list /\
  threadIds (snd r) = threadIds (observe (h_thread h) s).
Proof.
  cbv zeta.
  destruct (logMessage_recognized (inside_logError h) (VStr <$> parts) ERROR
              loggername timestamp s recognized_ERROR)
    as (Hr & Hs & _ & Hi & _).
  split; [done|]. split; [|done]. rewrite Hs. do 2 f_equal.
  unfold emitted. by rewrite str_VStr, levels_ERROR.
Qed.

Section LogErrorFacts.

Context {object : Type} (truth : object -> bool)
  (get_traceback : object -> result (option object))
  (format_exception : object -> object -> option object -> result (list string))
  (format_exception_only : object -> object -> result (list string)).

Lemma logError_with_traceback (h : hook_env) (exception : object)
    (value tb : option object) (kw : error_kwargs) (s : state)
    (tb' : option object) :
  default_tb object truth get_traceback exception tb = Return tb' ->
  is_Some (ek_loggername kw) \/ is_Some (h_outer h) ->
  let value' := default_value object truth exception value in
  let thread := render (peek_label s (h_thread h)) in
  let formatted :=
    match format_exception exception value' tb' with
    | Raise AttributeError => format_exception_only exception value'
    | r => r
    end in
  let r := logError object truth get_traceback format_exception
             format_exception_only h exception value tb kw s in
  match formatted with
  | Return lines =>
      fst r = Return tt /\
      sink (snd r) = (sink s ++ [error_record h kw thread [nl; banner];
                                 error_record h kw thread (nl :: lines)])%list
  | Raise ex =>
      fst r = Raise ex /\
      sink (snd r) = (sink s ++ [error_record h kw thread [nl; banner]])%list
  end.
Proof.
  intros Htb Hname. cbv zeta. unfold logError, bind, lift. rewrite Htb.
  assert (match ek_loggername kw with
          | Some n => ret n
          | None => outer_name h
          end s = (Return (error_loggername h kw), s)) as ->.
  { unfold error_loggername, outer_name.
    destruct (ek_loggername kw) as [n|]; [done|].
    destruct Hname as [[? [=]]|[f ->]]. done. }
  change [VStr nl; VStr banner] with (VStr <$> [nl; banner]).
  destruct (error_log_step h (error_loggername h kw) (ek_timestamp kw)
              [nl; banner] s) as (Hr1 & Hs1 & Hi1).
  cbv zeta in Hr1, Hs1, Hi1.
  destruct (logMessage (inside_logError h) (VStr <$> [nl; banner])
              (VInt ERROR) _ (ek_timestamp kw) s) as [r1 s1].
  simpl in Hr1, Hs1, Hi1. subst r1.
  assert (Hsecond : forall lines,
    let r := logMessage (inside_logError h) (VStr nl :: (VStr <$> lines))
               (VInt ERROR) (error_loggername h kw) (ek_timestamp kw) s1 in
    fst r = Return tt /\
    sink (snd r) = (sink s ++ [error_record h kw
                                 (render (peek_label s (h_thread h)))
                                 [nl; banner];
                               error_record h kw
                                 (render (peek_label s (h_thread h)))
                                 (nl :: lines)])%list).
  { intros lines. cbv zeta.
    change (VStr nl :: (VStr <$> lines)) with (VStr <$> (nl :: lines)).
    destruct (error_log_step h (error_loggername h kw) (ek_timestamp kw)
                (nl :: lines) s1) as (Hr2 & Hs2 & _).
    split; [done|]. cbv zeta in Hs2. rewrite Hs2, Hs1, <- app_assoc.
    by rewrite (peek_label_after _ _ _ Hi1). }
  unfold try_except.
  destruct (format_exception exception
              (default_value object truth exception value) tb') as [lines|ex].
  - destruct (Hsecond lines) as [Hr2 Hs2].
    destruct (logMessage _ _ _ _ _ s1) as [r2 s2]. simpl in *. by subst r2.
  - destruct (decide (ex = AttributeError)) as [->|Hne].
    + destruct (format_exception_only exception
                  (default_value object truth exception value)) as [lines|ex'].
      * destruct (Hsecond lines) as [Hr2 Hs2].
        destruct (logMessage _ _ _ _ _ s1) as [r2 s2]. simpl in *. by subst r2.
      * done.
    + destruct ex; done.
Qed.

Lemma logError_without_traceback (h : hook_env) (exception : object)
    (value tb : option object) (kw : error_kwargs) (s : state) (ex : exn) :
  default_tb object truth get_traceback exception tb = Raise ex ->
  logError object truth get_traceback format_exception format_exception_only
    h exception value tb kw s = (Raise ex, s).
Proof. intros H. unfold logError, bind, lift. by rewrite H. Qed.

Lemma logError_without_frame (h : hook_env) (exception : object)
    (value tb : option object) (kw : error_kwargs) (s : state)
    (tb' : option object) :
  default_tb object truth get_traceback exception tb = Return tb' ->
  ek_loggername kw = None -> h_outer h = None ->
  logError object truth get_traceback format_exception format_exception_only
    h exception value tb kw s = (Raise IndexError, s).
Proof.
  intros H Hk Ho. unfold logError, bind, lift, outer_name.
  by rewrite H, Hk, Ho.
Qed.

(** X12: [logError] raises before logging anything, and changes nothing, in
    two cases: with [AttributeError] (or whatever reading the attribute
    raises) when the traceback has to be read off the exception and the
    exception has none to read; and with [IndexError] when no [loggername]
    keyword is given and there is no calling frame to take the name from,
    as when the interpreter calls [logError] as [sys.excepthook].
    Otherwise it logs the banner, and then the formatted exception, falling
    back to the exception-only rendering when the formatting raises
    [AttributeError]; an error of the rendering that is used reaches the
    caller after the banner has been logged.  Both records are at [ERROR]
    whatever level the keywords carry, with the same thread label, in the
    channel named by the [loggername] keyword, or by the calling frame when
    the keyword is missing (and named [logError] when that name is Python's
    [None] or empty). *)
Theorem logError_outcome (h : hook_env) (exception : object)
    (value tb : option object) (kw : error_kwargs) (s : state) :
  let r := logError object truth get_traceback format_exception
             format_exception_only h exception value tb kw s in
  let value' := default_value object truth exception value in
  let thread := render (peek_label s (h_thread h)) in
  let first := error_record h kw thread [nl; banner] in
  match default_tb object truth get_traceback exception tb with
  | Raise ex => r = (Raise ex, s)
  | Return tb' =>
      match ek_loggername kw, h_outer h with
      | None, None => r = (Raise IndexError, s)
      | _, _ =>
          match
            match format_exception exception value' tb' with
            | Raise AttributeError => format_exception_only exception value'
            | formatted => formatted
            end
          with
          | Return lines =>
              fst r = Return tt /\
              sink (snd r)
                = (sink s ++ [first; error_record h kw thread (nl :: lines)])%list
          | Raise ex =>
              fst r = Raise ex /\ sink (snd r) = (sink s ++ [first])%list
          end
      end
  end.
Proof.
  cbv zeta.
  destruct (default_tb object truth get_traceback exception tb) as [tb'|ex] eqn:E;
    [|by apply logError_without_traceback].
  destruct (ek_loggername kw) as [n|] eqn:Ek.
  - apply (logError_with_traceback h exception value tb kw s tb' E).
    left. rewrite Ek. by eexists.
  - destruct (h_outer h) as [f|] eqn:Eo.
    + apply (logError_with_traceback h exception value tb kw s tb' E).
      right. rewrite Eo. by eexists.
    + by apply (logError_without_frame h exception value tb kw s tb').
Qed.

End LogErrorFacts.

Example logError_sample :
  let r := logError bool MoreSamples.sample_truth MoreSamples.sample_get_traceback
             MoreSamples.sample_format MoreSamples.sample_format_only
             MoreSamples.from_process true None None MoreSamples.no_kwargs
             (initial_state None) in
  fst r = Return tt /\
  levelno <$> sink (snd r) = [ERROR; ERROR] /\
  name <$> sink (snd r) = ["process"; "process"].
Proof. vm_compute. auto. Qed.

Example logError_as_excepthook :
  logError bool MoreSamples.sample_truth MoreSamples.sample_get_traceback
    MoreSamples.sample_format MoreSamples.sample_format_only
    MoreSamples.as_excepthook true (Some true) (Some true) MoreSamples.no_kwargs
    (initial_state None) = (Raise IndexError, initial_state None).
Proof. reflexivity. Qed.

Lemma observe_twice t s : observe t (observe t s) = observe t s.
Proof.
  destruct t as [|i]; simpl; [done|].
  destruct (threadIds s !! i) as [n|] eqn:E; simpl.
  - by rewrite E.
  - by rewrite lookup_insert_eq.
Qed.

(** X13: looking the same thread up a second time returns the same label
    and changes nothing; a first lookup advances the counter by one for a
    worker thread that is not yet registered and by nothing otherwise. *)
Theorem thread_label_twice (t : thread) (s : state) :
  let r := thread_label t s in
  thread_label t (snd r) = r /\
  _thread_count (snd r) =
    _thread_count s + (if decide (ident_of t ⊆ dom (threadIds s)) then 0 else 1).
Proof.
  cbv zeta. rewrite !thread_label_eq. simpl snd. split.
  - by rewrite observe_twice, (peek_label_after t s (observe t s) eq_refl).
  - destruct t as [|i]; simpl.
    + rewrite decide_True by set_solver. lia.
    + destruct (threadIds s !! i) as [n|] eqn:E; simpl.
      * rewrite decide_True; [lia|]. apply (elem_of_dom_2 (D := gset Z)) in E. set_solver.
      * rewrite decide_False; [lia|]. apply not_elem_of_dom in E. set_solver.
Qed.

End MsgExtra.

(** ** The sink of a run: records, log file and stream handler *)

Module MsgSinks.
Import Msg MsgSpec MsgMore Handlers MsgFacts MsgExtra.








Example sample_run_written :
  run_written MsgSamples.sample_run (initial_state None) =
    {| stderr := ["Mon Jan  1 00:00:00 2024 - process - INFO - 1 - a";
                  "Mon Jan  1 00:00:02 2024 - setup - WARNING - M - b";
                  "Mon Jan  1 00:00:01 2024 - fetch - ERROR - 2 - c";
                  "Mon Jan  1 00:00:00 2024 - process - DEBUG - 1 - d"];
       out_log := ["INFO:process:Mon Jan  1 00:00:00 2024 - process - INFO - 1 - a";
                   "WARNING:setup:Mon Jan  1 00:00:02 2024 - setup - WARNING - M - b";
                   "ERROR:fetch:Mon Jan  1 00:00:01 2024 - fetch - ERROR - 2 - c";
                   "DEBUG:process:Mon Jan  1 00:00:00 2024 - process - DEBUG - 1 - d"] |}.
Proof. vm_compute. reflexivity. Qed.


End MsgSinks.
